(** * Song lifecycle of the Dhive AI music service

    A shallow embedding of the task-tracking core of the service:
    [utils/helpers.py] (task id extraction), [models/song.py] (the Song
    row), [utils/music_generator.py] (the Suno orchestrator) and
    [utils/routes.py] (the Flask routes).  External collaborators (the
    LLM, the Suno HTTP API, Cloudinary, the SQL engine) are inputs of the
    model: every call that leaves the process is answered by a value the
    caller of the model supplies. *)

From Stdlib Require Import ZArith String Ascii Bool Lia.
From stdpp Require Import base option list.
From stdpp Require Import strings pretty.

Local Open Scope string_scope.
Local Open Scope Z_scope.

(** ** JSON-like Python values *)

Module Py.

(** The values that [json.loads] produces and that the handlers pass
    around.  A [dict] keeps its items in insertion order; numbers are the
    integers (a fractional JSON number has no counterpart here). *)
#[local] Unset Elimination Schemes.
Inductive json : Type :=
| JNull
| JBool (b : bool)
| JNum (n : Z)
| JStr (s : string)
| JList (items : list json)
| JObj (fields : list (string * json)).
#[local] Set Elimination Schemes.

Definition dict := list (string * json).

(** [bool(v)] *)
Definition truthy (v : json) : bool :=
  match v with
  | JNull => false
  | JBool b => b
  | JNum n => negb (n =? 0)
  | JStr s => negb (s =? "")%string
  | JList l => match l with [] => false | _ => true end
  | JObj o => match o with [] => false | _ => true end
  end.

(** [a or b] *)
Definition py_or (a b : json) : json := if truthy a then a else b.

(** [type(v).__name__] *)
Definition type_name (v : json) : string :=
  match v with
  | JNull => "NoneType"
  | JBool _ => "bool"
  | JNum _ => "int"
  | JStr _ => "str"
  | JList _ => "list"
  | JObj _ => "dict"
  end.

(** [key in d] and [d.get(key, default)], [d.get(key)] *)
Fixpoint has_key (d : dict) (k : string) : bool :=
  match d with
  | [] => false
  | (k', _) :: d' => (k' =? k)%string || has_key d' k
  end.

Fixpoint get_default (d : dict) (k : string) (dflt : json) : json :=
  match d with
  | [] => dflt
  | (k', v) :: d' => if (k' =? k)%string then v else get_default d' k dflt
  end.

Definition get (d : dict) (k : string) : json := get_default d k JNull.

(** [a == b] on parsed JSON, compared by structure. *)
Fixpoint json_eqb (a b : json) : bool :=
  match a, b with
  | JNull, JNull => true
  | JBool x, JBool y => Bool.eqb x y
  | JNum x, JNum y => (x =? y)
  | JStr x, JStr y => (x =? y)%string
  | JList xs, JList ys =>
      (fix items (xs ys : list json) : bool :=
         match xs, ys with
         | [], [] => true
         | x :: xs', y :: ys' => json_eqb x y && items xs' ys'
         | _, _ => false
         end) xs ys
  | JObj xs, JObj ys =>
      (fix fields (xs ys : dict) : bool :=
         match xs, ys with
         | [], [] => true
         | (k, x) :: xs', (k', y) :: ys' =>
             (k =? k')%string && json_eqb x y && fields xs' ys'
         | _, _ => false
         end) xs ys
  | _, _ => false
  end.

(** *** Exceptions *)

(** The exceptions the handlers distinguish: an attribute missing on a
    value ([AttributeError]), a failure of the [requests] library
    ([RequestException]), and any other exception raised by a
    collaborator. *)
Inductive exn : Type :=
| AttributeError (ty attr : string)
| RequestException (msg : string)
| OtherException (msg : string).

(** [str(e)] *)
Definition exn_str (e : exn) : string :=
  match e with
  | AttributeError ty attr =>
      "'" ++ ty ++ "' object has no attribute '" ++ attr ++ "'"
  | RequestException msg => msg
  | OtherException msg => msg
  end.

Inductive res (A : Type) : Type :=
| Ret (a : A)
| Raise (e : exn).
Arguments Ret {A} a.
Arguments Raise {A} e.

Definition bind {A B} (m : res A) (f : A -> res B) : res B :=
  match m with
  | Ret a => f a
  | Raise e => Raise e
  end.

(** [v.get(key)] and [v.get(key, default)] on a value that may not be a dict. *)
Definition attr_get_default (v : json) (k : string) (dflt : json) : res json :=
  match v with
  | JObj d => Ret (get_default d k dflt)
  | _ => Raise (AttributeError (type_name v) "get")
  end.

Definition attr_get (v : json) (k : string) : res json :=
  attr_get_default v k JNull.

(** *** Strings *)

(** [c.isspace()] on the ASCII range. *)
Definition is_space (c : ascii) : bool :=
  let n := nat_of_ascii c in
  ((9 <=? n) && (n <=? 13) || (28 <=? n) && (n <=? 32))%nat.

Definition lower_char (c : ascii) : ascii :=
  let n := nat_of_ascii c in
  if ((65 <=? n) && (n <=? 90))%nat then ascii_of_nat (n + 32) else c.

(** [s.lower()], on the ASCII letters. *)
Fixpoint lower (s : string) : string :=
  match s with
  | EmptyString => EmptyString
  | String c s' => String (lower_char c) (lower s')
  end.

Fixpoint lstrip (s : string) : string :=
  match s with
  | EmptyString => EmptyString
  | String c s' => if is_space c then lstrip s' else s
  end.

(** [s.rstrip(chars)] for a predicate on characters. *)
Fixpoint rstrip_with (p : ascii -> bool) (s : string) : string :=
  match s with
  | EmptyString => EmptyString
  | String c s' =>
      match rstrip_with p s' with
      | EmptyString => if p c then EmptyString else String c EmptyString
      | r => String c r
      end
  end.

(** [s.strip()], for the whitespace of the ASCII range; whitespace
    beyond it (U+00A0 and the like) is left in place. *)
Definition strip (s : string) : string := rstrip_with is_space (lstrip s).

(** [v.strip()] and [v.lower()] on a value that may not be a [str]. *)
Definition attr_strip (v : json) : res string :=
  match v with
  | JStr s => Ret (strip s)
  | _ => Raise (AttributeError (type_name v) "strip")
  end.

Definition attr_lower (v : json) : res string :=
  match v with
  | JStr s => Ret (lower s)
  | _ => Raise (AttributeError (type_name v) "lower")
  end.

End Py.

Import Py.

#[global] Instance res_ret : MRet res := @Ret.
#[global] Instance res_bind : MBind res := fun A B f m => bind m f.

(** ** [utils/helpers.py] *)

Module Helpers.

Definition id_keys : list string := ["id"; "task_id"; "taskId"; "taskID"].

(** [for key in (...): if key in d and d.get(key): return d[key]] *)
Fixpoint scan_present (d : dict) (keys : list string) : option json :=
  match keys with
  | [] => None
  | key :: keys' =>
      if has_key d key && truthy (get d key) then Some (get d key)
      else scan_present d keys'
  end.

(** [for key in (...): if d.get(key): return d[key]] *)
Fixpoint scan_get (d : dict) (keys : list string) : option json :=
  match keys with
  | [] => None
  | key :: keys' =>
      if truthy (get d key) then Some (get d key)
      else scan_get d keys'
  end.

(** [for candidate in data_field: if isinstance(candidate, dict): ...] *)
Fixpoint scan_candidates (cands : list json) : option json :=
  match cands with
  | [] => None
  | cand :: cands' =>
      match cand with
      | JObj c =>
          match scan_get c id_keys with
          | Some v => Some v
          | None => scan_candidates cands'
          end
      | _ => scan_candidates cands'
      end
  end.

(** [extract_task_id(item)]; Python's [None] result is [None]. *)
Definition extract_task_id (item : json) : option json :=
  match item with
  | JObj d =>
      if negb (truthy item) then None else
      match scan_present d id_keys with
      | Some v => Some v
      | None =>
          let data_field := get d "data" in
          match (match data_field with
                 | JObj dd => scan_present dd id_keys
                 | _ => None
                 end) with
          | Some v => Some v
          | None =>
              match (match data_field with
                     | JList (c :: cs) => scan_candidates (c :: cs)
                     | _ => None
                     end) with
              | Some v => Some v
              | None =>
                  match get d "metadata" with
                  | JObj m => scan_get m id_keys
                  | _ => None
                  end
              end
          end
      end
  | _ => None
  end.

(** [upload_to_cloudinary(remote_url)]: [cloud] is what downloading the
    file and [cloudinary.uploader.upload] do, an exception or a result
    with or without a [secure_url]. *)
Definition upload_to_cloudinary (cloud : res (option string)) : string :=
  match cloud with
  | Ret (Some secure_url) => secure_url
  | Ret None => ""
  | Raise _ => ""
  end.

End Helpers.

(** ** [models/song.py] *)

Inductive SongStatus : Type := pending | processing | completed | failed.

Module Song.

(** One row of table [song]; the two timestamps are left out. *)
Record t : Type := mk {
  id : nat;
  task_id : json;
  title : json;
  lyrics : string;
  style : json;
  mood : json;
  theme : json;
  artist_name : string;
  audio_url : option string;
  suno_url : json;
  cloudinary_url : option string;
  status : SongStatus;
  retry_count : Z;
  error_message : option string;
  duration : option Z
}.

(** [Song(title=..., lyrics=..., style=..., mood=..., theme=...,
    task_id=..., status=...)] once added: [__init__] leaves [suno_url],
    [cloudinary_url] and [duration] at [None] and [artist_name] empty;
    the columns it does not assign take their defaults at insert
    ([audio_url] and [error_message] NULL, [retry_count] 0) and [id] is
    the next autoincrement value. *)
Definition init (new_id : nat) (title : json) (lyrics : string)
    (style mood theme task_id : json) (status : SongStatus) : t :=
  {| id := new_id; task_id := task_id; title := title; lyrics := lyrics;
     style := style; mood := mood; theme := theme; artist_name := "";
     audio_url := None; suno_url := JNull; cloudinary_url := None;
     status := status; retry_count := 0; error_message := None;
     duration := None |}.

(** The four assignments both reconciliation paths make on a row. *)
Definition set_completed (s : t) (suno : json) (cloud : string) : t :=
  {| id := id s; task_id := task_id s; title := title s; lyrics := lyrics s;
     style := style s; mood := mood s; theme := theme s;
     artist_name := artist_name s;
     audio_url := Some cloud; suno_url := suno; cloudinary_url := Some cloud;
     status := completed; retry_count := retry_count s;
     error_message := error_message s; duration := duration s |}.

(** [self.status.value] *)
Definition status_value (st : SongStatus) : string :=
  match st with
  | pending => "pending"
  | processing => "processing"
  | completed => "completed"
  | failed => "failed"
  end.

End Song.

(** ** The process state and its monad *)

(** What persists between requests: the committed rows of table [song],
    in insertion order, and the log of bodies handed to
    [requests.post] on the Suno generate endpoint. *)
Record world : Type := mkWorld {
  songs : list Song.t;
  posted : list json
}.

Definition empty_world : world := {| songs := []; posted := [] |}.

(** A handler step: it may change the world and either returns or
    raises; what was committed before a raise stays committed. *)
Definition M (A : Type) : Type := world -> world * res A.

Definition ret {A} (a : A) : M A := fun w => (w, Ret a).
Definition raise {A} (e : exn) : M A := fun w => (w, Raise e).
Definition lift {A} (r : res A) : M A := fun w => (w, r).
Definition bindM {A B} (m : M A) (f : A -> M B) : M B :=
  fun w => match m w with
           | (w', Ret a) => f a w'
           | (w', Raise e) => (w', Raise e)
           end.
(** [try: m except Exception as e: h e] *)
Definition try_with {A} (m : M A) (h : exn -> M A) : M A :=
  fun w => match m w with
           | (w', Ret a) => (w', Ret a)
           | (w', Raise e) => h e w'
           end.

#[global] Instance M_ret : MRet M := @ret.
#[global] Instance M_bind : MBind M := fun A B f m => bindM m f.

(** *** The database session *)

(** [Song.query.filter_by(task_id=tid).first()] with the row's position. *)
Definition first_by_task_id (tid : json) (st : list Song.t)
  : option (nat * Song.t) :=
  list_find (fun s => Is_true (json_eqb (Song.task_id s) tid)) st.

Definition query_first (tid : json) : M (option (nat * Song.t)) :=
  fun w => (w, Ret (first_by_task_id tid (songs w))).

(** [db.session.commit()] of a pending change [upd] to the rows: the
    engine's answer [db] is either success or an exception, and a
    failed commit leaves the table as it was. *)
Definition commit (db : res unit) (upd : list Song.t -> list Song.t) : M unit :=
  fun w => match db with
           | Ret _ => ({| songs := upd (songs w); posted := posted w |}, Ret tt)
           | Raise e => (w, Raise e)
           end.

(** [db.session.add(song)] followed by the commit.  Rows are numbered by
    position; the sequence of the database may skip values (after an
    insert that failed), so only the identity of a row's [id] over time
    is meaningful here, not its value. *)
Definition add_song (mk_song : nat -> Song.t) (st : list Song.t) : list Song.t :=
  st ++ [mk_song (S (length st))].

(** *** Answers of the collaborators *)

(** A [requests] response: [resp.status_code], [resp.text] and
    [resp.json()], which is [None] when parsing raises. *)
Record response : Type := mkResponse {
  status_code : Z;
  text : string;
  body : option json
}.

(** An HTTP call either raises or answers. *)
Inductive outcome : Type :=
| Failed (e : exn)
| Responded (r : response).

Definition obj_of_opt_str (o : option string) : json :=
  match o with
  | None => JNull
  | Some s => JStr s
  end.

(** [not s] for an optional string column. *)
Definition unset (o : option string) : bool :=
  match o with
  | None => true
  | Some s => (s =? "")%string
  end.

(** ** [utils/music_generator.py] *)

Module SunoMusicGenerator.

Section Generator.

(** [APP_BASE_URL] *)
Variable app_base_url : string.

(** [_unique_title]: [suffix] is the timestamp and uuid part. *)
Definition _unique_title (suffix : string) (title : json) : res string :=
  base_title ← (if truthy title then attr_strip title else Ret "Untitled");
  Ret (base_title ++ "_" ++ suffix).

(** [generate_lyrics]: [llm] is the normalized answer of the model or
    the exception it raised. *)
Definition generate_lyrics (llm : res string) : res string :=
  match llm with
  | Ret lyrics => Ret lyrics
  | Raise e => Raise (OtherException ("Gemini generation failed: " ++ exn_str e))
  end.

(** [a or <rest>] where the rest is evaluated only when needed. *)
Definition or_else (a : json) (rest : res json) : res json :=
  if truthy a then Ret a else rest.

(** The request body of lines 95-128. *)
Definition build_payload (lyrics : string) (style title mood theme : json)
    (callback_url : option string) (custom_mode instrumental : bool)
  : res json :=
  let title := py_or title (JStr "Untitled") in
  let mood := py_or mood (JStr "") in
  let theme := py_or theme (JStr "") in
  let callback_url :=
    if unset callback_url
    then rstrip_with (fun c => Ascii.eqb c "/"%char) app_base_url ++ "/receive_song"
    else default "" callback_url in
  let payload :=
    [("customMode", JBool custom_mode);
     ("instrumental", JBool instrumental);
     ("prompt", JStr lyrics);
     ("title", title);
     ("mood", mood);
     ("theme", theme);
     ("model", JStr "V4_5");
     ("callbackUrl", JStr callback_url)] in
  with_style ← (if truthy style
                then s ← attr_strip style;
                     Ret (negb (lower s =? "instrumental")%string)
                else Ret false);
  Ret (JObj (if with_style : bool then payload ++ [("style", style)] else payload)).

(** [requests.post(..., json=payload)] *)
Definition requests_post (payload : json) (post : outcome) : M response :=
  fun w =>
    ({| songs := songs w; posted := posted w ++ [payload] |},
     match post with
     | Responded r => Ret r
     | Failed e => Raise e
     end).

(** Lines 151-169: the task id out of an accepted response. *)
Definition suno_task_id_of (resp_json data_field : json) : res json :=
  match data_field with
  | JObj d =>
      or_else (get d "taskId")
        (or_else (get d "task_id")
           (a ← attr_get resp_json "taskId";
            or_else a (attr_get resp_json "task_id")))
  | JList (first0 :: _) =>
      let first := py_or first0 (JObj []) in
      a ← attr_get first "taskId";
      or_else a
        (b ← attr_get first "task_id";
         or_else b
           (c ← attr_get first "id";
            or_else c
              (d ← attr_get resp_json "taskId";
               or_else d (attr_get resp_json "task_id"))))
  | _ => Ret JNull
  end.

(** Lines 178-194: insert if absent; a database error is swallowed. *)
Definition persist (db : res unit) (tid title : json) (lyrics : string)
    (style mood theme : json) : M unit :=
  try_with
    (existing ← query_first tid;
     match existing with
     | Some _ => mret tt
     | None =>
         commit db (add_song (fun i =>
           Song.init i title lyrics style mood theme tid processing))
     end)
    (fun _ => mret tt).

Definition generate_music (post : outcome) (db : res unit)
    (lyrics : string) (style title mood theme : json)
    (callback_url : option string) (custom_mode instrumental : bool)
  : M (json * Z) :=
  payload ← lift (build_payload lyrics style title mood theme
                    callback_url custom_mode instrumental);
  let title := py_or title (JStr "Untitled") in
  let mood := py_or mood (JStr "") in
  let theme := py_or theme (JStr "") in
  try_with
    (resp ← requests_post payload post;
     match body resp with
     | None =>
         mret (JObj [("error", JStr "Invalid response from Suno");
                     ("raw_response", JStr (text resp))], 502)
     | Some resp_json =>
         rejected ← lift (if negb (status_code resp =? 200) then Ret true
                          else code ← attr_get resp_json "code";
                               Ret (negb (json_eqb code (JNum 200))));
         if rejected : bool then
           msg ← lift (attr_get resp_json "msg");
           mret (JObj [("error", py_or msg (JStr "Suno error"));
                       ("raw_response", resp_json)], 502)
         else
           data_field ← lift (attr_get resp_json "data");
           suno_task_id ← lift (suno_task_id_of resp_json data_field);
           if negb (truthy suno_task_id) then
             mret (JObj [("error", JStr "Suno did not return a recognizable task id");
                         ("raw_response", resp_json)], 502)
           else
             _ ← persist db suno_task_id title lyrics style mood theme;
             mret (JObj [("message", JStr "Generation started");
                         ("task_id", suno_task_id);
                         ("data", JObj [("taskId", suno_task_id)]);
                         ("audio_url", JNull)], 202)
     end)
    (fun e => mret (JObj [("error", JStr "Unexpected error");
                          ("details", JStr (exn_str e))], 500)).


(** [d[key] = v] *)
Fixpoint set_item (d : dict) (k : string) (v : json) : dict :=
  match d with
  | [] => [(k, v)]
  | (k', v') :: d' =>
      if (k' =? k)%string then (k', v) :: d' else (k', v') :: set_item d' k v
  end.

Definition attr_set_item (o : json) (k : string) (v : json) : res json :=
  match o with
  | JObj d => Ret (JObj (set_item d k v))
  | JList _ => Raise (OtherException
                        "list indices must be integers or slices, not str")
  | _ => Raise (OtherException
                  ("'" ++ type_name o ++ "' object does not support item assignment"))
  end.

Definition is_none (v : json) : bool :=
  match v with
  | JNull => true
  | _ => false
  end.

(** [generate_song]: one answer [db] of the engine serves the request. *)
Definition generate_song (suffix : string) (llm : res string)
    (post : outcome) (db : res unit)
    (title theme genre mood style : json) (instrumental : bool)
  : M (json * Z) :=
  try_with
    (title ← lift (_unique_title suffix title);
     lyrics ← lift (generate_lyrics llm);
     '(response_data, status) ←
       generate_music post db lyrics style (JStr title) mood theme
                      None true instrumental;
     no_data ← lift (if negb (truthy response_data) then Ret true
                     else d ← attr_get response_data "data"; Ret (is_none d));
     if no_data : bool then
       mret (JObj [("error", JStr "Suno API returned no data");
                   ("raw_response", response_data)], 500)
     else
       task_id ← lift (a ← attr_get response_data "task_id";
                       or_else a
                         (d ← attr_get_default response_data "data" (JObj []);
                          attr_get d "taskId"));
       if status =? 202 then
         mret (JObj [("message", JStr "Song is still processing.");
                     ("task_id", task_id);
                     ("lyrics", JStr lyrics)], 202)
       else if status =? 200 then
         task_id ← lift (or_else task_id
                           (d ← attr_get_default response_data "data" (JObj []);
                            attr_get d "taskId"));
         existing_song ← query_first task_id;
         _ ← match existing_song with
             | Some _ => mret tt
             | None =>
                 try_with
                   (commit db (add_song (fun i =>
                      Song.init i (JStr title) lyrics style mood theme
                                task_id processing)))
                   (fun _ => mret tt)
             end;
         r1 ← lift (attr_set_item response_data "lyrics" (JStr lyrics));
         r2 ← lift (attr_set_item r1 "code" (JNum 200));
         r3 ← lift (attr_set_item r2 "msg" (JStr "success"));
         r4 ← lift (attr_set_item r3 "data" (JObj [("taskId", task_id)]));
         mret (r4, status)
       else mret (response_data, status))
    (fun e => mret (JObj [("error",
                           JStr ("Lyrics or music generation failed: "
                                 ++ exn_str e))], 500)).

Definition is_request_exception (e : exn) : bool :=
  match e with
  | RequestException _ => true
  | _ => false
  end.

(** [check_status(task_id)]: [poll] is the answer of the record-info
    endpoint.  Only a [RequestException] is caught. *)
Definition check_status (poll : outcome) (task_id : string) : res (json * Z) :=
  match poll with
  | Failed e =>
      if is_request_exception e
      then Ret (JObj [("error", JStr (exn_str e))], 500)
      else Raise e
  | Responded resp =>
      match body resp with
      | None =>
          Ret (JObj [("error", JStr "Invalid JSON from Suno");
                     ("raw_response", JStr (text resp))], status_code resp)
      | Some js =>
          not_found ← (if status_code resp =? 404 then Ret true
                       else s ← attr_get js "status";
                            Ret (json_eqb s (JNum 404)));
          if not_found : bool then
            message ← attr_get_default js "message" (JStr "Task not found");
            Ret (JObj [("task_id", JStr task_id);
                       ("status", JStr "not_found");
                       ("message", message)], 404)
          else
            is_error ← (if negb (status_code resp =? 200) then Ret true
                        else code ← attr_get js "code";
                             Ret (negb (json_eqb code (JNum 200)
                                        || json_eqb code JNull)));
            if is_error : bool then
              message ← (m ← attr_get js "msg";
                         or_else m
                           (e ← attr_get js "error";
                            or_else e (Ret (JStr "Unknown error"))));
              Ret (JObj [("task_id", JStr task_id);
                         ("status", JStr "error");
                         ("message", message);
                         ("raw_response", js)], status_code resp)
            else
              data_field ← attr_get js "data";
              audio_url ←
                match data_field with
                | JList (first :: _) =>
                    a ← attr_get first "audio_url";
                    or_else a (attr_get first "audioUrl")
                | JObj d => Ret (py_or (get d "audio_url") (get d "audioUrl"))
                | _ => Ret JNull
                end;
              if truthy audio_url then
                Ret (JObj [("task_id", JStr task_id);
                           ("status", JStr "completed");
                           ("audio_url", audio_url)], 200)
              else
                Ret (JObj [("task_id", JStr task_id);
                           ("status", JStr "pending")], 202)
      end
  end.

End Generator.

End SunoMusicGenerator.

(** ** [utils/routes.py] *)

Module Routes.

Section Routes.

Variable app_base_url : string.

(** [POST /create_song]: [req] is [request.get_json(force=True)]. *)
Definition create_song (req : res json) (suffix : string) (llm : res string)
    (post : outcome) (db : res unit) : M (json * Z) :=
  try_with
    (data ← lift req;
     title ← lift (attr_get_default data "title" (JStr "Untitled"));
     genre ← lift (attr_get_default data "genre" (JStr "pop"));
     mood ← lift (attr_get_default data "mood" (JStr ""));
     theme ← lift (attr_get_default data "theme" (JStr ""));
     style ← lift (attr_get_default data "style" genre);
     lowered ← lift (attr_lower style);
     let instrumental := (lowered =? "instrumental")%string in
     let style := if instrumental then genre else style in
     '(result, status) ←
       SunoMusicGenerator.generate_song app_base_url suffix llm post db
         title theme genre mood style instrumental;
     let task_id := Helpers.extract_task_id result in
     mret (JObj [("message", JStr "Song generation started");
                 ("task_id", default JNull task_id);
                 ("result", result)], status))
    (fun e => mret (JObj [("error", JStr (exn_str e))], 500)).

(** [GET /check_status/<task_id>]: [poll] answers the record-info call,
    [cloud] the re-upload, [db] the commit. *)
Definition check_status_route (poll : outcome) (cloud : res (option string))
    (db : res unit) (task_id : string) : M (json * Z) :=
  try_with
    ('(data, status) ← lift (SunoMusicGenerator.check_status poll task_id);
     match data with
     | JObj d =>
         if (status =? 404) || json_eqb (get d "error") (JStr "Not Found") then
           mret (JObj [("error", JStr "Task not found on Suno");
                       ("task_id", JStr task_id)], 404)
         else if negb (status =? 200) then mret (data, status)
         else
           let normalized_id :=
             py_or (default JNull (Helpers.extract_task_id data)) (JStr task_id) in
           let nested := match get d "data" with JObj n => n | _ => [] end in
           let suno_audio_url :=
             py_or (get d "audio_url")
               (py_or (get d "suno_url")
                  (py_or (get nested "audio_url") (get nested "suno_url"))) in
           found ← query_first normalized_id;
           match found with
           | None => mret (JObj [("error", JStr "Song not found")], 404)
           | Some (i, song) =>
               song ← (if truthy suno_audio_url && unset (Song.cloudinary_url song)
                       then
                         let cloudinary_url := Helpers.upload_to_cloudinary cloud in
                         let song' :=
                           Song.set_completed song suno_audio_url cloudinary_url in
                         _ ← commit db (fun st => <[i := song']> st);
                         mret song'
                       else mret song);
               mret (JObj [("status", JStr (Song.status_value (Song.status song)));
                           ("task_id", normalized_id);
                           ("audio_url", obj_of_opt_str (Song.cloudinary_url song));
                           ("lyrics", JStr (Song.lyrics song))],
                     if unset (Song.cloudinary_url song) then 202 else 200)
           end
     | _ =>
         if status =? 404 then
           mret (JObj [("error", JStr "Task not found on Suno");
                       ("task_id", JStr task_id)], 404)
         else mret (data, status)
     end)
    (fun e => mret (JObj [("error", JStr (exn_str e))], 500)).

(** [POST /receive_song]: [download] is the fetch of the audio,
    [cloud] the re-upload, [db] the commit. *)
Definition receive_song (req : res json) (download : res unit)
    (cloud : res (option string)) (db : res unit) : M (json * Z) :=
  try_with
    (data ← lift req;
     task_id ← lift (attr_get data "task_id");
     audio_url ← lift (attr_get data "audio_url");
     if negb (truthy task_id) || negb (truthy audio_url) then
       mret (JObj [("error", JStr "Missing task_id or audio_url")], 400)
     else
       found ← query_first task_id;
       match found with
       | None => mret (JObj [("error", JStr "Song not found")], 404)
       | Some (i, song) =>
           match download with
           | Raise (RequestException _) =>
               mret (JObj [("error", JStr "Failed to download audio")], 500)
           | Raise e => raise e
           | Ret _ =>
               let cloudinary_url := Helpers.upload_to_cloudinary cloud in
               if (cloudinary_url =? "")%string then
                 mret (JObj [("error", JStr "Cloudinary upload failed")], 500)
               else
                 try_with
                   (_ ← commit db (fun st =>
                          <[i := Song.set_completed song audio_url cloudinary_url]> st);
                    mret (JObj [("message", JStr "Song stored successfully");
                                ("task_id", task_id);
                                ("cloudinary_url", JStr cloudinary_url)], 200))
                   (fun _ =>
                      mret (JObj [("error", JStr "Database update failed")], 500))
           end
       end)
    (fun _ => mret (JObj [("error", JStr "Internal server error")], 500)).

End Routes.

End Routes.

(** ** The service as a transition system *)

(** One request together with the answers of the collaborators it
    consults. *)
Inductive event : Type :=
| CreateSong (req : res json) (suffix : string) (llm : res string)
             (post : outcome) (db : res unit)
| CheckStatus (task_id : string) (poll : outcome)
              (cloud : res (option string)) (db : res unit)
| ReceiveSong (req : res json) (download : res unit)
              (cloud : res (option string)) (db : res unit).

Section System.

Variable app_base_url : string.

Definition handle (ev : event) : M (json * Z) :=
  match ev with
  | CreateSong req suffix llm post db =>
      Routes.create_song app_base_url req suffix llm post db
  | CheckStatus task_id poll cloud db =>
      Routes.check_status_route poll cloud db task_id
  | ReceiveSong req download cloud db =>
      Routes.receive_song req download cloud db
  end.

Definition step (w : world) (ev : event) : world := (handle ev w).1.

(** The worlds the service gets into from an empty table. *)
Inductive reachable : world -> Prop :=
| reach_init : reachable empty_world
| reach_step w ev : reachable w -> reachable (step w ev).

End System.

(** ** Vocabulary of the properties *)

(** The number of rows carrying a task id. *)
Definition count_task (tid : json) (st : list Song.t) : nat :=
  length (List.filter (fun s => json_eqb (Song.task_id s) tid) st).

(** The edges of the lifecycle pending -> processing -> completed or failed. *)
Inductive status_next : SongStatus -> SongStatus -> Prop :=
| next_processing : status_next pending processing
| next_completed : status_next processing completed
| next_failed : status_next processing failed.

(** A write keeps the status or moves it along one edge. *)
Definition status_move (old new : SongStatus) : Prop :=
  old = new \/ status_next old new.

(** The ordered probe of the response normalizer, as a flat list of the
    values looked at: the four keys at top level, then in a [data]
    object, then in each element of a [data] list, then in a [metadata]
    object. *)
Definition key_values (v : json) : list json :=
  match v with
  | JObj d => List.map (get d) Helpers.id_keys
  | _ => []
  end.

Definition probes (item : json) : list json :=
  match item with
  | JObj d =>
      key_values item
      ++ key_values (get d "data")
      ++ match get d "data" with
         | JList l => List.concat (List.map key_values l)
         | _ => []
         end
      ++ key_values (get d "metadata")
  | _ => []
  end.

(** The first non-empty value among the probes, if any. *)
Definition first_match (item : json) : option json :=
  head (List.filter truthy (probes item)).

(** A request leaves the rows alone, appends one fresh [processing] row,
    or rewrites one row with the four completion assignments. *)
Inductive change (st st' : list Song.t) : Prop :=
| change_none : st' = st -> change st st'
| change_insert tid title lyrics style mood theme :
    first_by_task_id tid st = None ->
    st' = (st ++ [Song.init (S (length st)) title lyrics style mood theme
                    tid processing])%list ->
    change st st'
| change_complete i s suno cloud :
    st !! i = Some s ->
    st' = <[i := Song.set_completed s suno cloud]> st ->
    change st st'.

(** [m] never touches the rows. *)
Definition pure {A} (m : M A) : Prop := forall w, songs (m w).1 = songs w.

(** Started on rows [st], [m] makes at most one change. *)
Definition changes_from {A} (st : list Song.t) (m : M A) : Prop :=
  forall w, songs w = st -> change st (songs (m w).1).

(** What holds of every row the service has written. *)
Record row_ok (s : Song.t) : Prop := mk_row_ok {
  row_status : Song.status s = processing \/ Song.status s = completed;
  row_error : Song.error_message s = None;
  row_mirror : Song.audio_url s = Song.cloudinary_url s;
  row_cloud : Song.cloudinary_url s <> None -> Song.status s = completed
}.

Definition unique_task_ids (st : list Song.t) : Prop :=
  NoDup (Song.task_id <$> st).

(** The task id a call of [generate_music] reports as started. *)
Definition accepted_task_id (r : res (json * Z)) : option json :=
  match r with
  | Ret (JObj out, 202) => Some (get out "task_id")
  | _ => None
  end.

(** The four local results of a poll, as section 4.3 words them. *)
Inductive verdict : Type :=
| not_found
| error
| completed_with (audio_url : json)
| still_pending.

(** The audio URL of a status body: [audio_url] or [audioUrl], in a
    [data] object or in the first element of a [data] list. *)
Definition provider_audio_url (d : dict) : json :=
  match get d "data" with
  | JObj o => py_or (get o "audio_url") (get o "audioUrl")
  | JList (JObj o :: _) => py_or (get o "audio_url") (get o "audioUrl")
  | _ => JNull
  end.

Definition says_not_found (http : Z) (d : dict) : bool :=
  (http =? 404) || json_eqb (get d "status") (JNum 404).

Definition says_error (http : Z) (d : dict) : bool :=
  negb (http =? 200)
  || negb (json_eqb (get d "code") (JNum 200) || json_eqb (get d "code") JNull).

Definition classify (http : Z) (d : dict) : verdict :=
  if says_not_found http d then not_found
  else if says_error http d then error
  else if truthy (provider_audio_url d) then completed_with (provider_audio_url d)
  else still_pending.

Definition verdict_status (v : verdict) : string :=
  match v with
  | not_found => "not_found"
  | error => "error"
  | completed_with _ => "completed"
  | still_pending => "pending"
  end.

Definition verdict_http (http : Z) (v : verdict) : Z :=
  match v with
  | not_found => 404
  | error => http
  | completed_with _ => 200
  | still_pending => 202
  end.

(** The body shapes [check_status] reads without raising: a JSON object
    whose [data], when it is consulted and is a non-empty list, starts
    with an object. *)
Definition readable (http : Z) (d : dict) : bool :=
  says_not_found http d || says_error http d ||
  match get d "data" with
  | JList (JObj _ :: _) => true
  | JList (_ :: _) => false
  | _ => true
  end.

(** ** Sample traffic *)

Definition sample_base_url : string := "http://127.0.0.1:5000".

(** Suno accepts a submission and names the task ["abc"]. *)
Definition sample_accept : outcome :=
  Responded {| status_code := 200; text := "";
               body := Some (JObj [("code", JNum 200);
                                   ("data", JObj [("taskId", JStr "abc")])]) |}.

Definition sample_create : event :=
  CreateSong (Ret (JObj [("title", JStr "Dawn"); ("genre", JStr "pop");
                         ("mood", JStr "hopeful")]))
             "20250101_000000_0a1b2c3d" (Ret "la la la") sample_accept (Ret tt).

Definition sample_callback (secure_url : string) : event :=
  ReceiveSong (Ret (JObj [("task_id", JStr "abc");
                          ("audio_url", JStr "https://provider/x.mp3")]))
              (Ret tt) (Ret (Some secure_url)) (Ret tt).

(** The table after the sample creation, and after its callback. *)
Definition sample_created : world := step sample_base_url empty_world sample_create.

Definition sample_completed : world :=
  step sample_base_url sample_created
       (sample_callback "https://res.cloudinary.com/demo/a.mp3").

Definition instrumental_request : json :=
  JObj [("style", JStr "instrumental"); ("genre", JStr "lofi")].

(** ** More of [utils/helpers.py] *)

Module Text.

(** The characters of a string that satisfy [p], in order. *)
Fixpoint keep (p : ascii -> bool) (s : string) : string :=
  match s with
  | EmptyString => EmptyString
  | String c s' => if p c then String c (keep p s') else keep p s'
  end.

Fixpoint all_chars (p : ascii -> bool) (s : string) : bool :=
  match s with
  | EmptyString => true
  | String c s' => p c && all_chars p s'
  end.

Definition is_ascii (c : ascii) : bool := (nat_of_ascii c <? 128)%nat.

(** The class [[A-Za-z0-9_\-]]. *)
Definition is_safe (c : ascii) : bool :=
  let n := nat_of_ascii c in
  ((65 <=? n) && (n <=? 90) || (97 <=? n) && (n <=? 122)
   || (48 <=? n) && (n <=? 57) || (n =? 95) || (n =? 45))%nat.

(** [re.sub(r"\s+", "_", s)]: every maximal run of whitespace becomes one
    underscore; [in_run] tells that the previous character was
    whitespace. *)
Fixpoint sub_spaces (in_run : bool) (s : string) : string :=
  match s with
  | EmptyString => EmptyString
  | String c s' =>
      if is_space c
      then (if in_run then sub_spaces true s'
            else String "_"%char (sub_spaces true s'))
      else String c (sub_spaces false s')
  end.

(** [s[:n]] *)
Fixpoint take (n : nat) (s : string) : string :=
  match n, s with
  | S n', String c s' => String c (take n' s')
  | _, _ => EmptyString
  end.

(** [s.split('/')[-1]]: [acc] is the segment read so far. *)
Fixpoint last_segment_from (acc : string) (s : string) : string :=
  match s with
  | EmptyString => acc
  | String c s' =>
      if Ascii.eqb c "/"%char then last_segment_from EmptyString s'
      else last_segment_from (acc ++ String c EmptyString) s'
  end.

Definition last_segment (s : string) : string :=
  last_segment_from EmptyString s.

(** [sep.join(parts)] *)
Fixpoint join (sep : string) (parts : list string) : string :=
  match parts with
  | [] => EmptyString
  | [p] => p
  | p :: rest => p ++ sep ++ join sep rest
  end.

End Text.

Module Helpers2.

(** [sanitize_for_logging(text)] on a [str]: encoding to ASCII with
    [errors='ignore'] drops what is not ASCII. *)
Definition sanitize_for_logging (text : string) : string :=
  Text.keep Text.is_ascii text.

(** The content of an LLM message: a string, or a list of parts. *)
Inductive content : Type :=
| Plain (s : string)
| Parts (items : list json).

(** [item if isinstance(item, str) else item.get("text", "")] *)
Definition part_text (item : json) : res json :=
  match item with
  | JStr s => Ret (JStr s)
  | _ => attr_get_default item "text" (JStr "")
  end.

(** The generator handed to [join] is run to its end first. *)
Fixpoint part_texts (items : list json) : res (list json) :=
  match items with
  | [] => Ret []
  | item :: items' =>
      t ← part_text item;
      ts ← part_texts items';
      Ret (t :: ts)
  end.

(** [join] then refuses the first element that is not a [str]. *)
Fixpoint expect_strs (i : nat) (vs : list json) : res (list string) :=
  match vs with
  | [] => Ret []
  | JStr s :: vs' => ss ← expect_strs (S i) vs'; Ret (s :: ss)
  | v :: _ =>
      Raise (OtherException
               ("sequence item " ++ pretty i ++ ": expected str instance, "
                ++ type_name v ++ " found"))
  end.

(** [normalize_content(content)] *)
Definition normalize_content (c : content) : res string :=
  match c with
  | Plain s => Ret s
  | Parts items =>
      ts ← part_texts items;
      ss ← expect_strs 0 ts;
      Ret (Text.join " " ss)
  end.

(** [make_safe_public_id(title, task_id)] *)
Definition safe_base (title : string) : string :=
  let base := if (title =? "")%string then "dhive_song" else title in
  let base := strip base in
  let base := Text.sub_spaces false base in
  let base := Text.keep Text.is_safe base in
  Text.take 120 base.

Definition make_safe_public_id (title task_id : string) : string :=
  safe_base title ++ "_" ++ task_id.

End Helpers2.

(** ** More of [models/song.py] *)

Module SongView.

Definition obj_of_opt_num (o : option Z) : json :=
  match o with
  | None => JNull
  | Some n => JNum n
  end.

(** [to_dict]: [created_at] and [updated_at] are the two timestamps in
    ISO format, when set. *)
Definition to_dict (created_at updated_at : option string) (s : Song.t) : dict :=
  [("id", JNum (Z.of_nat (Song.id s)));
   ("task_id", Song.task_id s);
   ("title", Song.title s);
   ("lyrics", JStr (Song.lyrics s));
   ("style", Song.style s);
   ("mood", Song.mood s);
   ("theme", Song.theme s);
   ("artist_name", JStr (Song.artist_name s));
   ("suno_url", Song.suno_url s);
   ("cloudinary_url", obj_of_opt_str (Song.cloudinary_url s));
   ("audio_url", obj_of_opt_str (Song.cloudinary_url s));
   ("status", JStr (Song.status_value (Song.status s)));
   ("retry_count", JNum (Song.retry_count s));
   ("error_message", obj_of_opt_str (Song.error_message s));
   ("duration", obj_of_opt_num (Song.duration s));
   ("created_at", obj_of_opt_str created_at);
   ("updated_at", obj_of_opt_str updated_at)].

End SongView.

(** ** More of [utils/music_generator.py] *)

Module Polling.

(** What one attempt of [upload_audio_to_cloudinary_from_buffer] ends
    in, after [attempts] calls of the uploader: the [secure_url] of the
    result, or tenacity's [RetryError] around the last exception. *)
Inductive retried : Type :=
| Uploaded (secure_url : option string) (attempts : nat)
| RetryError (last : exn) (attempts : nat).

(** [@retry(stop=stop_after_attempt(n))] around the upload: [cloud k] is
    what the [k]-th call of the uploader does; [left] more calls are
    allowed after this one. *)
Fixpoint retry_upload (cloud : nat -> res (option string)) (k left : nat)
  : retried :=
  match cloud k with
  | Ret secure_url => Uploaded secure_url (S k)
  | Raise e =>
      match left with
      | O => RetryError e (S k)
      | S left' => retry_upload cloud (S k) left'
      end
  end.

(** [upload_audio_to_cloudinary_from_buffer]: three attempts. *)
Definition upload_audio_to_cloudinary_from_buffer
    (cloud : nat -> res (option string)) : retried :=
  retry_upload cloud 0 2.

(** The answer of the local status endpoint to one poll:
    [requests.get] raises, or answers with a status and a body whose
    [.json()] returns or raises. *)
Inductive local_answer : Type :=
| Unreachable (e : exn)
| Answered (status : Z) (data : res json).

(** One turn of the loop body: the audio URL to return, an exception
    that leaves the function, or nothing yet. *)
Definition poll_once (a : local_answer) : res (option json) :=
  match a with
  | Unreachable e =>
      if SunoMusicGenerator.is_request_exception e then Ret None else Raise e
  | Answered status data =>
      if status =? 200 then
        match data with
        | Raise e =>
            if SunoMusicGenerator.is_request_exception e then Ret None
            else Raise e
        | Ret d =>
            url ← attr_get d "audio_url";
            Ret (if truthy url then Some url else None)
        end
      else Ret None
  end.

(** [poll_for_audio(task_id, interval, retries)]: [answers k] answers
    the [k]-th poll; the result comes with the number of polls made. *)
Fixpoint poll_from (answers : nat -> local_answer) (attempt retries : nat)
  : nat * res (option json) :=
  match retries with
  | O => (attempt, Ret None)
  | S retries' =>
      match poll_once (answers attempt) with
      | Ret (Some url) => (S attempt, Ret (Some url))
      | Ret None => poll_from answers (S attempt) retries'
      | Raise e => (S attempt, Raise e)
      end
  end.

Definition poll_for_audio (answers : nat -> local_answer) (retries : nat)
  : nat * res (option json) :=
  poll_from answers 0 retries.

End Polling.

(** ** More of [utils/routes.py] *)

Module Routes2.

(** What a route hands back: a JSON body with a status, or a file sent
    as an attachment. *)
Inductive reply : Type :=
| Json (payload : json) (status : Z)
| Attachment (content download_name mimetype : string).

(** [v.split('/')[-1]] on a value that may not be a [str]. *)
Definition attr_last_segment (v : json) : res string :=
  match v with
  | JStr s => Ret (Text.last_segment s)
  | _ => Raise (AttributeError (type_name v) "split")
  end.

(** [POST /download]: [req] is [request.get_json()], [fetch] the
    [requests.get] of the URL, whose [text] stands for the bytes
    received. *)
Definition download (req : res json) (fetch : outcome) : res reply :=
  data ← req;
  if negb (truthy data) then
    Ret (Json (JObj [("error", JStr "Missing JSON payload")]) 400)
  else
    url ← attr_get data "audio_url";
    if negb (truthy url) then
      Ret (Json (JObj [("error", JStr "audio_url required")]) 400)
    else
      match (match fetch with
             | Failed e => Raise e
             | Responded response =>
                 if status_code response =? 200 then
                   name ← attr_last_segment url;
                   Ret (Attachment (text response) ("song_" ++ name) "audio/mpeg")
                 else
                   Ret (Json (JObj [("error", JStr "Failed to download file")]) 500)
             end) with
      | Ret r => Ret r
      | Raise e =>
          Ret (Json (JObj [("error", JStr "Download failed");
                           ("details", JStr (exn_str e))]) 500)
      end.

End Routes2.

(** ** Runs *)

(** The world after a sequence of requests. *)
Definition run (url : string) (evs : list event) (w : world) : world :=
  fold_left (step url) evs w.

(** ** Vocabulary of the further properties *)

(** A part that [normalize_content] can use: a string, or an object
    whose [text] is a string or is missing. *)
Definition is_text_part (item : json) : bool :=
  match item with
  | JStr _ => true
  | JObj d =>
      match get_default d "text" (JStr "") with
      | JStr _ => true
      | _ => false
      end
  | _ => false
  end.
(** Not the path separator. *)
Definition not_slash (c : ascii) : bool := negb (Ascii.eqb c "/"%char).

(** * Properties *)

(** ** Values *)

Lemma json_ind (P : json -> Prop)
    (Hnull : P JNull) (Hbool : forall b, P (JBool b))
    (Hnum : forall n, P (JNum n)) (Hstr : forall s, P (JStr s))
    (Hlist : forall l, Forall P l -> P (JList l))
    (Hobj : forall d, Forall (fun kv => P kv.2) d -> P (JObj d)) :
  forall j, P j.
Proof.
  fix IH 1. intros [ | b | n | s | l | d].
  - exact Hnull.
  - exact (Hbool b).
  - exact (Hnum n).
  - exact (Hstr s).
  - apply Hlist. revert l. fix IHl 1.
    intros [|a l]; constructor; [apply IH | apply IHl].
  - apply Hobj. revert d. fix IHd 1.
    intros [|[k a] d]; constructor; [apply IH | apply IHd].
Qed.

Lemma json_eqb_eq (a b : json) : json_eqb a b = true <-> a = b.
Proof.
  revert b. induction a as [ | x | x | x | xs IH | xs IH] using json_ind;
    intros [ | y | y | y | ys | ys]; simpl; try (split; congruence).
  - rewrite Bool.eqb_true_iff. split; congruence.
  - rewrite Z.eqb_eq. split; congruence.
  - rewrite String.eqb_eq. split; congruence.
  - revert ys. induction IH as [|x xs Hx _ IHxs]; intros [|y ys];
      try (split; congruence).
    rewrite andb_true_iff, Hx, IHxs. split.
    + intros [-> Heq]. congruence.
    + intros Heq. split; congruence.
  - revert ys. induction IH as [|[k x] xs Hx _ IHxs]; intros [|[k' y] ys];
      try (split; congruence).
    simpl in Hx.
    rewrite !andb_true_iff, String.eqb_eq, Hx, IHxs. split.
    + intros [[-> ->] Heq]. congruence.
    + intros Heq. repeat split; congruence.
Qed.

Lemma json_eqb_refl (a : json) : json_eqb a a = true.
Proof. by apply json_eqb_eq. Qed.

Lemma has_key_false_get (d : dict) (k : string) :
  has_key d k = false -> get d k = JNull.
Proof.
  unfold get. induction d as [|[k' v] d IH]; simpl; [done|].
  destruct (k' =? k)%string; simpl; [done | exact IH].
Qed.

Lemma truthy_get_has_key (d : dict) (k : string) :
  truthy (get d k) = true -> has_key d k = true.
Proof.
  intros Ht. destruct (has_key d k) eqn:Hk; [done|].
  rewrite (has_key_false_get _ _ Hk) in Ht. discriminate.
Qed.

(** ** Task id extraction *)

Lemma scan_get_first (d : dict) (keys : list string) :
  Helpers.scan_get d keys = head (List.filter truthy (List.map (get d) keys)).
Proof.
  induction keys as [|k keys IH]; simpl; [done|].
  destruct (truthy (get d k)); [done | exact IH].
Qed.

Lemma scan_present_get (d : dict) (keys : list string) :
  Helpers.scan_present d keys = Helpers.scan_get d keys.
Proof.
  induction keys as [|k keys IH]; simpl; [done|].
  destruct (truthy (get d k)) eqn:Ht.
  - by rewrite (truthy_get_has_key _ _ Ht).
  - by rewrite andb_false_r.
Qed.

Lemma head_filter_app {A} (p : A -> bool) (l1 l2 : list A) :
  head (List.filter p (l1 ++ l2))
  = match head (List.filter p l1) with
    | Some v => Some v
    | None => head (List.filter p l2)
    end.
Proof.
  rewrite List.filter_app. by destruct (List.filter p l1).
Qed.

Lemma scan_candidates_first (cands : list json) :
  Helpers.scan_candidates cands
  = head (List.filter truthy (List.concat (List.map key_values cands))).
Proof.
  induction cands as [|c cands IH]; [done|].
  change (List.concat (List.map key_values (c :: cands)))
    with (key_values c ++ List.concat (List.map key_values cands))%list.
  rewrite head_filter_app, <- IH.
  destruct c as [ | | | | | d]; try done.
  change (Helpers.scan_candidates (JObj d :: cands))
    with (match Helpers.scan_get d Helpers.id_keys with
          | Some v => Some v
          | None => Helpers.scan_candidates cands
          end).
  by rewrite scan_get_first.
Qed.

Lemma first_match_truthy (item v : json) :
  first_match item = Some v -> truthy v = true.
Proof.
  unfold first_match. intros Hh.
  assert (Hin : In v (List.filter truthy (probes item))).
  { destruct (List.filter truthy (probes item)); simplify_eq/=. by left. }
  by apply List.filter_In in Hin as [_ ?].
Qed.

Lemma key_values_scan_get (v : json) :
  head (List.filter truthy (key_values v))
  = match v with
    | JObj d => Helpers.scan_get d Helpers.id_keys
    | _ => None
    end.
Proof. destruct v; try done. by rewrite scan_get_first. Qed.

Lemma key_values_scan_present (v : json) :
  head (List.filter truthy (key_values v))
  = match v with
    | JObj d => Helpers.scan_present d Helpers.id_keys
    | _ => None
    end.
Proof.
  rewrite key_values_scan_get. destruct v; try done.
  by rewrite scan_present_get.
Qed.

Lemma data_list_scan (v : json) :
  head (List.filter truthy
          match v with
          | JList l => List.concat (List.map key_values l)
          | _ => []
          end)
  = match v with
    | JList (c :: cs) => Helpers.scan_candidates (c :: cs)
    | _ => None
    end.
Proof.
  destruct v as [ | | | | l | ]; try done.
  destruct l as [|c cs]; [done|]. by rewrite scan_candidates_first.
Qed.

Lemma extract_task_id_first_match (item : json) :
  Helpers.extract_task_id item = first_match item.
Proof.
  unfold first_match. destruct item as [ | | | | | d]; try done.
  destruct d as [|kv d]; [done|].
  set (o := kv :: d).
  unfold probes. rewrite !head_filter_app.
  rewrite (key_values_scan_present (JObj o)),
    (key_values_scan_present (get o "data")), data_list_scan,
    (key_values_scan_get (get o "metadata")).
  reflexivity.
Qed.

(** C5. [extract_task_id] returns the first non-empty value among the
    ordered probes (top-level [id]/[task_id]/[taskId]/[taskID], then the
    same keys in a nested [data] object, then in each element of a nested
    [data] list, then in a nested [metadata] object), a returned value is
    non-empty, and nothing is returned when no probe matches.  It yields
    ["abc"] on the four sample shapes and nothing on [{}] and [None]. *)
Theorem extract_task_id_ordered_probe :
  (forall item, Helpers.extract_task_id item = first_match item)
  /\ (forall item v, Helpers.extract_task_id item = Some v -> truthy v = true)
  /\ Helpers.extract_task_id (JObj [("data", JObj [("taskId", JStr "abc")])])
     = Some (JStr "abc")
  /\ Helpers.extract_task_id (JObj [("task_id", JStr "abc")]) = Some (JStr "abc")
  /\ Helpers.extract_task_id (JObj [("data", JList [JObj [("id", JStr "abc")]])])
     = Some (JStr "abc")
  /\ Helpers.extract_task_id (JObj [("metadata", JObj [("taskId", JStr "abc")])])
     = Some (JStr "abc")
  /\ Helpers.extract_task_id (JObj []) = None
  /\ Helpers.extract_task_id JNull = None.
Proof.
  split; [exact extract_task_id_first_match|].
  split.
  { intros item v. rewrite extract_task_id_first_match.
    apply first_match_truthy. }
  repeat split; reflexivity.
Qed.

(** ** What a request does to the table *)


Section Effects.

Context {A : Type}.


Lemma pure_ret (a : A) : pure (ret a).
Proof. by intros w. Qed.

Lemma pure_mret (a : A) : pure (mret a).
Proof. by intros w. Qed.

Lemma pure_raise (e : exn) : pure (@raise A e).
Proof. by intros w. Qed.

Lemma pure_lift (r : res A) : pure (lift r).
Proof. by intros w. Qed.

Lemma pure_try (m : M A) (h : exn -> M A) :
  pure m -> (forall e, pure (h e)) -> pure (try_with m h).
Proof.
  intros Hm Hh w. unfold try_with. specialize (Hm w).
  destruct (m w) as [w' [a|e]]; simpl in *; [done|].
  by rewrite Hh.
Qed.

Lemma changes_pure (st : list Song.t) (m : M A) : pure m -> changes_from st m.
Proof. intros Hm w <-. apply change_none, Hm. Qed.

Lemma changes_try_l (st : list Song.t) (m : M A) (h : exn -> M A) :
  pure m -> (forall e, changes_from st (h e)) -> changes_from st (try_with m h).
Proof.
  intros Hm Hh w Hw. unfold try_with. specialize (Hm w).
  destruct (m w) as [w' [a|e]]; simpl in *.
  - apply change_none. congruence.
  - apply Hh. congruence.
Qed.

Lemma changes_try_r (st : list Song.t) (m : M A) (h : exn -> M A) :
  changes_from st m -> (forall e, pure (h e)) -> changes_from st (try_with m h).
Proof.
  intros Hm Hh w Hw. unfold try_with. specialize (Hm w Hw).
  destruct (m w) as [w' [a|e]]; simpl in *; [done|].
  by rewrite Hh.
Qed.

End Effects.

Section EffectsBind.

Context {A B : Type}.

Lemma pure_bind (m : M A) (f : A -> M B) :
  pure m -> (forall a, pure (f a)) -> pure (m ≫= f).
Proof.
  intros Hm Hf w. unfold mbind, M_bind, bindM. specialize (Hm w).
  destruct (m w) as [w' [a|e]]; simpl in *; [|done].
  by rewrite Hf.
Qed.

Lemma changes_bind_l (st : list Song.t) (m : M A) (f : A -> M B) :
  pure m -> (forall a, changes_from st (f a)) -> changes_from st (m ≫= f).
Proof.
  intros Hm Hf w Hw. unfold mbind, M_bind, bindM. specialize (Hm w).
  destruct (m w) as [w' [a|e]]; simpl in *.
  - apply Hf. congruence.
  - apply change_none. congruence.
Qed.

Lemma changes_bind_r (st : list Song.t) (m : M A) (f : A -> M B) :
  changes_from st m -> (forall a, pure (f a)) -> changes_from st (m ≫= f).
Proof.
  intros Hm Hf w Hw. unfold mbind, M_bind, bindM. specialize (Hm w Hw).
  destruct (m w) as [w' [a|e]]; simpl in *; [|done].
  by rewrite Hf.
Qed.

End EffectsBind.

Lemma pure_query (tid : json) : pure (query_first tid).
Proof. by intros w. Qed.

Lemma pure_post (payload : json) (post : outcome) :
  pure (SunoMusicGenerator.requests_post payload post).
Proof. by intros w. Qed.

Lemma changes_query {B} (st : list Song.t) (tid : json)
    (k : option (nat * Song.t) -> M B) :
  changes_from st (k (first_by_task_id tid st)) ->
  changes_from st (query_first tid ≫= k).
Proof.
  intros Hk w Hw. unfold mbind, M_bind, bindM, query_first. simpl.
  rewrite Hw. by apply Hk.
Qed.

Lemma first_by_task_id_Some (tid : json) (st : list Song.t) i s :
  first_by_task_id tid st = Some (i, s) ->
  st !! i = Some s /\ Song.task_id s = tid.
Proof.
  unfold first_by_task_id. intros (Hi & Hs & _)%list_find_Some.
  split; [done|]. apply json_eqb_eq. by destruct (json_eqb _ _).
Qed.

Lemma first_by_task_id_None (tid : json) (st : list Song.t) :
  first_by_task_id tid st = None <->
  forall s, s ∈ st -> Song.task_id s <> tid.
Proof.
  unfold first_by_task_id. rewrite list_find_None, Forall_forall.
  split; intros H s Hs.
  - intros Heq. apply (H s Hs). rewrite Heq, json_eqb_refl. done.
  - intros Ht. apply (H s Hs). apply json_eqb_eq. by destruct (json_eqb _ _).
Qed.

Lemma changes_commit_insert (st : list Song.t) (db : res unit)
    (tid title : json) (lyrics : string) (style mood theme : json) :
  first_by_task_id tid st = None ->
  changes_from st (commit db (add_song (fun i =>
    Song.init i title lyrics style mood theme tid processing))).
Proof.
  intros Hn w Hw. unfold commit, add_song. destruct db; simpl.
  - rewrite Hw. by eapply change_insert.
  - by apply change_none.
Qed.

Lemma changes_commit_complete (st : list Song.t) (db : res unit)
    (tid : json) i s (suno : json) (cloud : string) :
  first_by_task_id tid st = Some (i, s) ->
  changes_from st (commit db (fun st0 =>
    <[i := Song.set_completed s suno cloud]> st0)).
Proof.
  intros [Hi _]%first_by_task_id_Some w Hw. unfold commit. destruct db; simpl.
  - rewrite Hw. by eapply change_complete.
  - by apply change_none.
Qed.

Ltac pure_tac :=
  repeat first
    [ apply pure_mret | apply pure_ret | apply pure_raise | apply pure_lift
    | apply pure_query | apply pure_post
    | apply pure_bind; [|intros ?]
    | apply pure_try; [|intros ?]
    | match goal with
      | |- pure (match ?x with _ => _ end) => destruct x
      end ].

Ltac changes_tac :=
  first
    [ solve [apply changes_pure; pure_tac]
    | solve [eapply changes_commit_insert; eassumption]
    | solve [eapply changes_commit_complete; eassumption]
    | apply changes_query; changes_tac
    | apply changes_bind_l; [solve [pure_tac] | intros ?; changes_tac]
    | apply changes_bind_r; [changes_tac | intros ?; solve [pure_tac]]
    | apply changes_try_l; [solve [pure_tac] | intros ?; changes_tac]
    | apply changes_try_r; [changes_tac | intros ?; solve [pure_tac]]
    | match goal with
      | |- changes_from _ (match ?x with _ => _ end) =>
          destruct x eqn:?; changes_tac
      end ].

Section Changes.

Variable app_base_url : string.

Lemma persist_changes st db tid title lyrics style mood theme :
  changes_from st
    (SunoMusicGenerator.persist db tid title lyrics style mood theme).
Proof. unfold SunoMusicGenerator.persist. changes_tac. Qed.

Lemma generate_music_changes st post db lyrics style title mood theme
    callback_url custom_mode instrumental :
  changes_from st
    (SunoMusicGenerator.generate_music app_base_url post db lyrics style title
       mood theme callback_url custom_mode instrumental).
Proof.
  unfold SunoMusicGenerator.generate_music.
  apply changes_bind_l; [pure_tac | intros payload].
  apply changes_try_r; [|intros ?; pure_tac].
  apply changes_bind_l; [pure_tac | intros resp].
  destruct (body resp) as [resp_json|]; [|apply changes_pure; pure_tac].
  apply changes_bind_l; [pure_tac | intros [|]].
  { apply changes_pure; pure_tac. }
  apply changes_bind_l; [pure_tac | intros data_field].
  apply changes_bind_l; [pure_tac | intros tid].
  destruct (negb (truthy tid)); [apply changes_pure; pure_tac|].
  apply changes_bind_r; [apply persist_changes | intros ?; pure_tac].
Qed.

(** [generate_music] answers 202, 502 or 500, never 200. *)
Lemma generate_music_status post db lyrics style title mood theme
    callback_url custom_mode instrumental w r status :
  (SunoMusicGenerator.generate_music app_base_url post db lyrics style title
     mood theme callback_url custom_mode instrumental w).2 = Ret (r, status) ->
  status = 202 \/ status = 502 \/ status = 500.
Proof.
  unfold SunoMusicGenerator.generate_music, SunoMusicGenerator.requests_post,
    SunoMusicGenerator.persist, query_first, commit, try_with, lift,
    mbind, mret, M_bind, M_ret, bindM, ret.
  intros H. repeat (case_match; simplify_eq/=); auto.
Qed.

Lemma changes_bind_r_post {A B} (Q : A -> Prop) st (m : M A) (f : A -> M B) :
  changes_from st m ->
  (forall w a, (m w).2 = Ret a -> Q a) ->
  (forall a, Q a -> pure (f a)) ->
  changes_from st (m ≫= f).
Proof.
  intros Hm HQ Hf w Hw. unfold mbind, M_bind, bindM.
  specialize (Hm w Hw). specialize (HQ w).
  destruct (m w) as [w' [a|e]]; simpl in *; [|done].
  rewrite Hf; [done|]. by apply HQ.
Qed.

Lemma generate_song_changes st suffix llm post db title theme genre mood
    style instrumental :
  changes_from st
    (SunoMusicGenerator.generate_song app_base_url suffix llm post db
       title theme genre mood style instrumental).
Proof.
  unfold SunoMusicGenerator.generate_song.
  apply changes_try_r; [|intros ?; pure_tac].
  apply changes_bind_l; [pure_tac | intros title'].
  apply changes_bind_l; [pure_tac | intros lyrics].
  eapply (changes_bind_r_post (fun a => a.2 <> 200)).
  - apply generate_music_changes.
  - intros w [r status] H%generate_music_status. simpl. lia.
  - intros [r status] Hs. simpl in Hs.
    apply pure_bind; [pure_tac | intros [|]]; [pure_tac|].
    apply pure_bind; [pure_tac | intros task_id].
    destruct (status =? 202); [pure_tac|].
    destruct (status =? 200) eqn:E; [lia | pure_tac].
Qed.

Lemma create_song_changes st req suffix llm post db :
  changes_from st (Routes.create_song app_base_url req suffix llm post db).
Proof.
  unfold Routes.create_song.
  apply changes_try_r; [|intros ?; pure_tac].
  do 7 (apply changes_bind_l; [pure_tac | intros ?]).
  apply changes_bind_r; [apply generate_song_changes | intros [? ?]; pure_tac].
Qed.

Lemma check_status_route_changes st poll cloud db task_id :
  changes_from st (Routes.check_status_route poll cloud db task_id).
Proof. unfold Routes.check_status_route. changes_tac. Qed.

Lemma receive_song_changes st req download cloud db :
  changes_from st (Routes.receive_song req download cloud db).
Proof. unfold Routes.receive_song. changes_tac. Qed.

(** Every request makes at most one of the three changes. *)
Lemma step_change (w : world) (ev : event) :
  change (songs w) (songs (step app_base_url w ev)).
Proof.
  unfold step. destruct ev; simpl.
  - by apply create_song_changes.
  - by apply check_status_route_changes.
  - by apply receive_song_changes.
Qed.

End Changes.

(** ** Invariants of the table *)


Lemma init_row_ok i title lyrics style mood theme tid :
  row_ok (Song.init i title lyrics style mood theme tid processing).
Proof. split; simpl; auto. done. Qed.

Lemma set_completed_row_ok s suno cloud :
  Song.error_message s = None -> row_ok (Song.set_completed s suno cloud).
Proof. intros He. split; simpl; auto. Qed.

Lemma change_rows_ok st st' :
  change st st' -> Forall row_ok st -> Forall row_ok st'.
Proof.
  intros [-> | tid title lyrics style mood theme _ -> | i s suno cloud Hi ->] Hst.
  - done.
  - apply Forall_app. split; [done|].
    constructor; [apply init_row_ok | constructor].
  - apply Forall_insert; [done|].
    apply set_completed_row_ok.
    by destruct (Forall_lookup_1 _ _ _ _ Hst Hi).
Qed.

Lemma change_unique st st' :
  change st st' -> unique_task_ids st -> unique_task_ids st'.
Proof.
  unfold unique_task_ids.
  intros [-> | tid title lyrics style mood theme Hn -> | i s suno cloud Hi ->] Hst.
  - done.
  - rewrite fmap_app. apply NoDup_app. split; [done|]. split.
    + intros t Ht Hin. simpl in Hin. apply list_elem_of_singleton in Hin.
      subst t. apply list_elem_of_fmap in Ht as (s & Hs & Hin).
      rewrite first_by_task_id_None in Hn. by apply (Hn s Hin).
    + apply NoDup_singleton.
  - rewrite list_fmap_insert. simpl.
    rewrite list_insert_id; [done|].
    by rewrite list_lookup_fmap, Hi.
Qed.

Section Reachable.

Variable app_base_url : string.

Lemma reachable_rows_ok w :
  reachable app_base_url w -> Forall row_ok (songs w).
Proof.
  induction 1 as [|w ev _ IH]; [constructor|].
  eapply change_rows_ok; [apply step_change | exact IH].
Qed.

Lemma reachable_unique w :
  reachable app_base_url w -> unique_task_ids (songs w).
Proof.
  induction 1 as [|w ev _ IH]; [constructor|].
  eapply change_unique; [apply step_change | exact IH].
Qed.

End Reachable.

(** A change keeps every row in place, with its task id, and writes only
    [completed] over an existing status. *)
Lemma change_lookup st st' i s :
  change st st' -> st !! i = Some s ->
  exists s', st' !! i = Some s'
    /\ Song.task_id s' = Song.task_id s
    /\ (Song.status s' = Song.status s \/ Song.status s' = completed)
    /\ (s' = s \/ exists suno cloud, s' = Song.set_completed s suno cloud).
Proof.
  intros [-> | tid title lyrics style mood theme _ -> | j t suno cloud Hj ->] Hi.
  - exists s. auto.
  - exists s. rewrite lookup_app_l; [auto | by eapply lookup_lt_Some].
  - destruct (decide (i = j)) as [->|Hne].
    + assert (t = s) as -> by congruence.
      exists (Song.set_completed s suno cloud).
      rewrite list_lookup_insert_eq; [|by eapply lookup_lt_Some].
      repeat split; eauto.
    + exists s. rewrite list_lookup_insert_ne; auto.
Qed.

(** A row that a change adds is a fresh [processing] row. *)
Lemma change_new st st' i s' :
  change st st' -> st !! i = None -> st' !! i = Some s' ->
  Song.status s' = processing
  /\ Song.cloudinary_url s' = None /\ Song.audio_url s' = None
  /\ Song.error_message s' = None.
Proof.
  intros [-> | tid title lyrics style mood theme _ -> | j t suno cloud Hj ->]
    Hn Hi.
  - congruence.
  - apply lookup_ge_None in Hn.
    rewrite lookup_app_r in Hi by done.
    destruct (i - length st)%nat as [|k]; simpl in Hi; [|by destruct k].
    by simplify_eq.
  - destruct (decide (i = j)) as [->|Hne]; [congruence|].
    rewrite list_lookup_insert_ne in Hi by done. congruence.
Qed.

(** Whatever the table, a request leaves a completed row completed. *)
Lemma completed_stays_completed url w ev i s :
  songs w !! i = Some s -> Song.status s = completed ->
  exists s', songs (step url w ev) !! i = Some s'
             /\ Song.status s' = completed.
Proof.
  intros Hi Hc.
  destruct (change_lookup _ _ _ _ (step_change url w ev) Hi)
    as (s' & Hi' & _ & Hs & _).
  exists s'. split; [done|]. destruct Hs; congruence.
Qed.


(** ** Creation *)


Lemma count_task_app tid st1 st2 :
  count_task tid (st1 ++ st2) = (count_task tid st1 + count_task tid st2)%nat.
Proof. unfold count_task. by rewrite List.filter_app, length_app. Qed.

Lemma count_task_absent tid st :
  first_by_task_id tid st = None -> count_task tid st = 0%nat.
Proof.
  rewrite first_by_task_id_None. unfold count_task.
  induction st as [|s st IH]; intros Hn; simpl; [done|].
  destruct (json_eqb (Song.task_id s) tid) eqn:E.
  - apply json_eqb_eq in E. destruct (Hn s); [left | done].
  - apply IH. intros s' Hs'. apply Hn. by right.
Qed.

Lemma count_task_present tid st p :
  first_by_task_id tid st = Some p -> (1 <= count_task tid st)%nat.
Proof.
  destruct p as [i s]. intros [Hi Ht]%first_by_task_id_Some.
  apply list_elem_of_lookup_2, list_elem_of_split in Hi as (l1 & l2 & ->).
  rewrite count_task_app. unfold count_task at 2. simpl.
  rewrite Ht, json_eqb_refl. simpl. lia.
Qed.

Lemma count_task_unique tid st :
  unique_task_ids st -> (count_task tid st <= 1)%nat.
Proof.
  unfold unique_task_ids, count_task.
  induction st as [|s st IH]; simpl; [lia|].
  intros [Hnotin Hnd]%NoDup_cons.
  destruct (json_eqb (Song.task_id s) tid) eqn:E; [|by apply IH].
  apply json_eqb_eq in E. simpl.
  enough (first_by_task_id tid st = None) as H0.
  { apply count_task_absent in H0. unfold count_task in H0. lia. }
  apply first_by_task_id_None. intros s' Hs' Heq.
  apply Hnotin. rewrite E, <- Heq. apply list_elem_of_fmap. eauto.
Qed.

(** The rows after the insert-if-absent step. *)
Lemma persist_songs db tid title lyrics style mood theme w :
  songs (SunoMusicGenerator.persist db tid title lyrics style mood theme w).1
  = match first_by_task_id tid (songs w), db with
    | None, Ret _ =>
        (songs w ++ [Song.init (S (length (songs w))) title lyrics style mood
                       theme tid processing])%list
    | _, _ => songs w
    end.
Proof.
  unfold SunoMusicGenerator.persist, try_with, mbind, M_bind, bindM,
    query_first, commit, add_song.
  simpl. destruct (first_by_task_id tid (songs w)); [done|].
  by destruct db.
Qed.

Lemma count_task_persist db tid title lyrics style mood theme w :
  count_task tid
    (songs (SunoMusicGenerator.persist db tid title lyrics style mood theme w).1)
  = match first_by_task_id tid (songs w), db with
    | None, Ret _ => 1%nat
    | _, _ => count_task tid (songs w)
    end.
Proof.
  rewrite persist_songs.
  destruct (first_by_task_id tid (songs w)) eqn:E; [done|].
  destruct db; [|done].
  rewrite count_task_app, (count_task_absent _ _ E).
  unfold count_task. simpl. by rewrite json_eqb_refl.
Qed.

Section Creation.

Variable app_base_url : string.

(** An accepted submission ran the insert-if-absent step on its task id. *)
Lemma generate_music_accepted post db lyrics style title mood theme
    callback_url custom_mode instrumental w w' r T :
  SunoMusicGenerator.generate_music app_base_url post db lyrics style title
    mood theme callback_url custom_mode instrumental w = (w', r) ->
  accepted_task_id r = Some T ->
  exists w0,
    songs w0 = songs w
    /\ truthy T = true
    /\ w' = (SunoMusicGenerator.persist db T (py_or title (JStr "Untitled"))
               lyrics style (py_or mood (JStr "")) (py_or theme (JStr "")) w0).1.
Proof.
  unfold SunoMusicGenerator.generate_music, SunoMusicGenerator.requests_post,
    try_with, lift, mbind, mret, M_bind, M_ret, bindM, ret, accepted_task_id.
  intros H Hacc.
  repeat (case_match; simplify_eq/=).
  match goal with
  | Hp : SunoMusicGenerator.persist _ ?t _ _ _ _ _ ?w0 = _ |- _ =>
      exists w0; change (get _ "task_id") with t; rewrite Hp
  end.
  repeat split. by apply negb_false_iff.
Qed.

End Creation.


Section Lifecycle.

Variable app_base_url : string.

(** C1 (as amended). A submission that [generate_music] accepts with task
    id [T], on a table with unique task ids, leaves at most one row with
    [task_id = T]; exactly one when the insert commits or a row was already
    there (a failed insert is swallowed and leaves none); and running the
    insert-if-absent step again with [T] never creates a second row. *)
Theorem creation_at_most_once post db lyrics style title mood theme
    callback_url custom_mode instrumental w w' r T :
  unique_task_ids (songs w) ->
  SunoMusicGenerator.generate_music app_base_url post db lyrics style title
    mood theme callback_url custom_mode instrumental w = (w', r) ->
  accepted_task_id r = Some T ->
  (count_task T (songs w') <= 1)%nat
  /\ ((exists u, db = Ret u) \/ count_task T (songs w) = 1%nat ->
      count_task T (songs w') = 1%nat)
  /\ (forall db' title' lyrics' style' mood' theme',
        let w'' := (SunoMusicGenerator.persist db' T title' lyrics' style'
                      mood' theme' w').1 in
        (count_task T (songs w'') <= 1)%nat
        /\ (count_task T (songs w') = 1%nat -> songs w'' = songs w')).
Proof.
  intros Huniq Hrun Hacc.
  destruct (generate_music_accepted _ _ _ _ _ _ _ _ _ _ _ _ _ _ _ Hrun Hacc)
    as (w0 & Hw0 & _ & ->).
  assert (Huniq' : forall db1 t1 l1 s1 m1 th1 w1,
             unique_task_ids (songs w1) ->
             unique_task_ids
               (songs (SunoMusicGenerator.persist db1 T t1 l1 s1 m1 th1 w1).1)).
  { intros. eapply change_unique; [by apply persist_changes | done]. }
  rewrite <- Hw0 in Huniq.
  split; [by apply count_task_unique, Huniq'|].
  split.
  - rewrite count_task_persist, <- Hw0.
    intros [[u ->] | Hone].
    + destruct (first_by_task_id T (songs w0)) eqn:E; [|done].
      apply count_task_present in E.
      pose proof (count_task_unique T _ Huniq). lia.
    + destruct (first_by_task_id T (songs w0)) eqn:E; [done|].
      apply count_task_absent in E. lia.
  - intros db' title' lyrics' style' mood' theme'. simpl. split.
    + by apply count_task_unique, Huniq', Huniq'.
    + intros Hone. rewrite persist_songs.
      destruct (first_by_task_id T (songs _)) eqn:E; [done|].
      apply count_task_absent in E. lia.
Qed.

(** C2. In every world the service reaches, a request keeps each row in
    place and either leaves its status or moves it along one edge of
    pending -> processing -> completed or failed; a completed row stays
    completed; and a row the request adds starts at processing. *)
Theorem status_moves_forward w ev :
  reachable app_base_url w ->
  (forall i s, songs w !! i = Some s ->
     exists s', songs (step app_base_url w ev) !! i = Some s'
       /\ Song.task_id s' = Song.task_id s
       /\ status_move (Song.status s) (Song.status s')
       /\ (Song.status s = completed -> Song.status s' = completed))
  /\ (forall i s', songs w !! i = None ->
        songs (step app_base_url w ev) !! i = Some s' ->
        Song.status s' = processing).
Proof.
  intros Hreach. pose proof (step_change app_base_url w ev) as Hch. split.
  - intros i s Hi.
    destruct (change_lookup _ _ _ _ Hch Hi) as (s' & Hi' & Ht & Hs & _).
    exists s'. repeat split; try done.
    + destruct Hs as [->|Hs]; [by left|].
      pose proof (reachable_rows_ok _ _ Hreach) as Hok.
      destruct (Forall_lookup_1 _ _ _ _ Hok Hi) as [[Hp|Hc] _ _ _].
      * right. rewrite Hp, Hs. constructor.
      * left. congruence.
    + intros Hc. destruct Hs; congruence.
  - intros i s' Hn Hi'. by destruct (change_new _ _ _ _ Hch Hn Hi').
Qed.

(** C4. In every world the service reaches, [audio_url] equals
    [cloudinary_url] on every row. *)
Theorem audio_url_mirrors_cloudinary_url w :
  reachable app_base_url w ->
  Forall (fun s => Song.audio_url s = Song.cloudinary_url s) (songs w).
Proof.
  intros Hreach. eapply Forall_impl; [exact (reachable_rows_ok _ _ Hreach)|].
  by intros s [].
Qed.

(** C10. In every world the service reaches, no row is [failed] (its
    status is pending, processing or completed) and no row has an
    [error_message]. *)
Theorem failed_is_unreachable w :
  reachable app_base_url w ->
  Forall (fun s =>
            (Song.status s = pending \/ Song.status s = processing
             \/ Song.status s = completed)
            /\ Song.status s <> failed
            /\ Song.error_message s = None) (songs w).
Proof.
  intros Hreach. eapply Forall_impl; [exact (reachable_rows_ok _ _ Hreach)|].
  intros s [[Hs|Hs] He _ _]; rewrite Hs; repeat split; auto; discriminate.
Qed.

End Lifecycle.

(** The sample creation answers 202 and stores one [processing] row; the
    callback completes it. *)
Example sample_created_rows :
  (fun s => (Song.task_id s, Song.status s, Song.cloudinary_url s))
    <$> songs sample_created
  = [(JStr "abc", processing, None)].
Proof. reflexivity. Qed.

Example sample_completed_rows :
  (fun s => (Song.task_id s, Song.status s, Song.cloudinary_url s))
    <$> songs sample_completed
  = [(JStr "abc", completed, Some "https://res.cloudinary.com/demo/a.mp3")].
Proof. reflexivity. Qed.

(** Witness of C1: the sample submission on the empty table. *)
Lemma creation_at_most_once_witness :
  let run := SunoMusicGenerator.generate_music sample_base_url sample_accept
               (Ret tt) "la la la" (JStr "pop") (JStr "Dawn") (JStr "hopeful")
               JNull None true false empty_world in
  unique_task_ids (songs empty_world)
  /\ accepted_task_id run.2 = Some (JStr "abc")
  /\ count_task (JStr "abc") (songs run.1) = 1%nat
  /\ (forall db' title' lyrics' style' mood' theme',
        songs (SunoMusicGenerator.persist db' (JStr "abc") title' lyrics'
                 style' mood' theme' run.1).1 = songs run.1).
Proof.
  intros run.
  assert (Hu : unique_task_ids (songs empty_world)) by constructor.
  assert (Hr : SunoMusicGenerator.generate_music sample_base_url sample_accept
                 (Ret tt) "la la la" (JStr "pop") (JStr "Dawn") (JStr "hopeful")
                 JNull None true false empty_world = (run.1, run.2))
    by reflexivity.
  assert (Ha : accepted_task_id run.2 = Some (JStr "abc")) by reflexivity.
  destruct (creation_at_most_once sample_base_url _ _ _ _ _ _ _ _ _ _ _ _ _ _
              Hu Hr Ha) as (_ & Hone & Hagain).
  assert (H1 : count_task (JStr "abc") (songs run.1) = 1%nat).
  { apply Hone. left. by exists tt. }
  split; [exact Hu|]. split; [exact Ha|]. split; [exact H1|].
  intros db' title' lyrics' style' mood' theme'.
  exact (proj2 (Hagain db' title' lyrics' style' mood' theme') H1).
Defined.

(** Counterexample to C1 as stated: Suno accepts the submission with task
    id ["abc"], the insert fails and is swallowed, the caller is told the
    generation started, and no row with that task id exists. *)
Lemma creation_not_always_recorded :
  let run := SunoMusicGenerator.generate_music sample_base_url sample_accept
               (Raise (OtherException "database is locked")) "la la la"
               (JStr "pop") (JStr "Dawn") (JStr "hopeful") JNull None true
               false empty_world in
  accepted_task_id run.2 = Some (JStr "abc")
  /\ count_task (JStr "abc") (songs run.1) = 0%nat
  /\ count_task (JStr "abc") (songs run.1) <> 1%nat.
Proof.
  intros run. split; [reflexivity|]. split; [reflexivity|].
  vm_compute. discriminate.
Qed.

(** Witness of C2: the callback on the sample row moves it from
    processing to completed. *)
Lemma status_moves_forward_witness :
  reachable sample_base_url sample_created
  /\ (forall i s, songs sample_created !! i = Some s ->
        exists s', songs sample_completed !! i = Some s'
          /\ Song.task_id s' = Song.task_id s
          /\ status_move (Song.status s) (Song.status s')
          /\ (Song.status s = completed -> Song.status s' = completed))
  /\ (forall i s', songs sample_created !! i = None ->
        songs sample_completed !! i = Some s' ->
        Song.status s' = processing).
Proof.
  assert (Hr : reachable sample_base_url sample_created)
    by apply reach_step, reach_init.
  split; [exact Hr|].
  exact (status_moves_forward sample_base_url sample_created
           (sample_callback "https://res.cloudinary.com/demo/a.mp3") Hr).
Defined.

(** Witness of C4: the completed sample row. *)
Lemma audio_url_mirrors_cloudinary_url_witness :
  reachable sample_base_url sample_completed
  /\ Forall (fun s => Song.audio_url s = Song.cloudinary_url s)
            (songs sample_completed).
Proof.
  assert (Hr : reachable sample_base_url sample_completed)
    by apply reach_step, reach_step, reach_init.
  split; [exact Hr|].
  exact (audio_url_mirrors_cloudinary_url sample_base_url sample_completed Hr).
Defined.

(** Witness of C10: the completed sample row. *)
Lemma failed_is_unreachable_witness :
  reachable sample_base_url sample_completed
  /\ Forall (fun s =>
               (Song.status s = pending \/ Song.status s = processing
                \/ Song.status s = completed)
               /\ Song.status s <> failed
               /\ Song.error_message s = None) (songs sample_completed).
Proof.
  assert (Hr : reachable sample_base_url sample_completed)
    by apply reach_step, reach_step, reach_init.
  split; [exact Hr|].
  exact (failed_is_unreachable sample_base_url sample_completed Hr).
Defined.

(** ** The callback *)

(** C3. Two callbacks with the same [{task_id, audio_url}] on the sample
    row, answered by Cloudinary with two different asset URLs: the second
    run uploads again and replaces the [cloudinary_url] the first run
    stored. *)
Theorem receive_song_overwrites_cloudinary_url :
  let after_first :=
    step sample_base_url sample_created
         (sample_callback "https://res.cloudinary.com/demo/a.mp3") in
  let after_second :=
    step sample_base_url after_first
         (sample_callback "https://res.cloudinary.com/demo/b.mp3") in
  Song.cloudinary_url <$> songs after_first
    = [Some "https://res.cloudinary.com/demo/a.mp3"]
  /\ Song.cloudinary_url <$> songs after_second
    = [Some "https://res.cloudinary.com/demo/b.mp3"]
  /\ (handle sample_base_url
        (sample_callback "https://res.cloudinary.com/demo/b.mp3")
        after_first).2
     = Ret (JObj [("message", JStr "Song stored successfully");
                  ("task_id", JStr "abc");
                  ("cloudinary_url",
                   JStr "https://res.cloudinary.com/demo/b.mp3")], 200).
Proof. repeat split. Qed.

(** Once a row has a [cloudinary_url] its status is completed, in every
    world the service reaches. *)
Lemma cloudinary_url_implies_completed url w :
  reachable url w ->
  Forall (fun s => Song.cloudinary_url s <> None -> Song.status s = completed)
         (songs w).
Proof.
  intros Hreach. eapply Forall_impl; [exact (reachable_rows_ok _ _ Hreach)|].
  by intros s [].
Qed.

Lemma first_by_task_id_insert tid st i s s' :
  first_by_task_id tid st = Some (i, s) ->
  Song.task_id s' = Song.task_id s ->
  first_by_task_id tid (<[i := s']> st) = Some (i, s').
Proof.
  unfold first_by_task_id. intros (Hi & Hs & Hmin)%list_find_Some Ht.
  apply list_find_Some. split; [|split].
  - apply list_lookup_insert_eq. by eapply lookup_lt_Some.
  - by rewrite Ht.
  - intros j y Hj Hlt. rewrite list_lookup_insert_ne in Hj by lia.
    by eapply Hmin.
Qed.

(** The rows after a callback. *)
Lemma receive_song_songs req download cloud db w :
  songs (Routes.receive_song req download cloud db w).1
  = match req with
    | Ret (JObj d) =>
        if truthy (get d "task_id") && truthy (get d "audio_url") then
          match first_by_task_id (get d "task_id") (songs w), download, db with
          | Some (i, s), Ret _, Ret _ =>
              if (Helpers.upload_to_cloudinary cloud =? "")%string then songs w
              else <[i := Song.set_completed s (get d "audio_url")
                             (Helpers.upload_to_cloudinary cloud)]> (songs w)
          | _, _, _ => songs w
          end
        else songs w
    | _ => songs w
    end.
Proof.
  unfold Routes.receive_song, query_first, commit, try_with, lift, raise,
    mbind, mret, M_bind, M_ret, bindM, ret, get.
  repeat (case_match; simplify_eq/=); try reflexivity;
    repeat match goal with
           | H : context [truthy ?x] |- _ => destruct (truthy x)
           end;
    simpl in *; congruence.
Qed.

(** A callback repeated with the same answers of the collaborators, the
    same [secure_url] included, changes nothing the second time. *)
Lemma receive_song_same_answers_idempotent url w req download cloud db :
  let ev := ReceiveSong req download cloud db in
  songs (step url (step url w ev) ev) = songs (step url w ev).
Proof.
  intros ev. unfold step, ev, handle.
  rewrite (receive_song_songs req download cloud db
             (Routes.receive_song req download cloud db w).1).
  rewrite !receive_song_songs.
  destruct req as [[ | | | | | d]|]; try reflexivity.
  destruct (truthy (get d "task_id") && truthy (get d "audio_url"));
    [|reflexivity].
  destruct (first_by_task_id (get d "task_id") (songs w)) as [[i s]|] eqn:E.
  2: { by rewrite E. }
  destruct download; [|by rewrite E].
  destruct db; [|by rewrite E].
  destruct (Helpers.upload_to_cloudinary cloud =? "")%string; [by rewrite E|].
  erewrite first_by_task_id_insert; [|exact E|reflexivity].
  by rewrite list_insert_insert_eq.
Qed.

(** ** Task id of an accepted submission *)

(** C6. On the accepted response [{"code":200,"data":{"id":"abc"}}] the
    orchestrator finds no task id: it answers 502 and stores nothing,
    although the same id inside a [data] list is found. *)
Theorem generate_music_misses_id_in_data_object :
  let in_object :=
    Responded {| status_code := 200; text := "";
                 body := Some (JObj [("code", JNum 200);
                                     ("data", JObj [("id", JStr "abc")])]) |} in
  let in_list :=
    Responded {| status_code := 200; text := "";
                 body := Some (JObj [("code", JNum 200);
                                     ("data", JList [JObj [("id", JStr "abc")]])]) |} in
  let run post :=
    SunoMusicGenerator.generate_music sample_base_url post (Ret tt) "la la la"
      (JStr "pop") (JStr "Dawn") JNull JNull None true false empty_world in
  (run in_object).2
  = Ret (JObj [("error", JStr "Suno did not return a recognizable task id");
               ("raw_response",
                JObj [("code", JNum 200);
                      ("data", JObj [("id", JStr "abc")])])], 502)
  /\ songs (run in_object).1 = []
  /\ accepted_task_id (run in_list).2 = Some (JStr "abc").
Proof. repeat split. Qed.

(** ** The poll path *)

(** C8. A poll on the sample row that sees a transient audio URL while
    the re-upload fails: the row is written and committed with an empty
    [cloudinary_url] and status completed, and the caller gets status
    ["completed"] with HTTP 202. *)
Theorem poll_commits_after_failed_upload :
  let poll :=
    Responded {| status_code := 200; text := "";
                 body := Some (JObj [("code", JNum 200);
                                     ("data", JObj [("audio_url",
                                        JStr "https://provider/x.mp3")])]) |} in
  let run :=
    Routes.check_status_route poll (Raise (OtherException "upload failed"))
      (Ret tt) "abc" sample_created in
  (fun s => (Song.status s, Song.suno_url s, Song.cloudinary_url s,
             Song.audio_url s)) <$> songs sample_created
    = [(processing, JNull, None, None)]
  /\ (fun s => (Song.status s, Song.suno_url s, Song.cloudinary_url s,
                Song.audio_url s)) <$> songs run.1
    = [(completed, JStr "https://provider/x.mp3", Some "", Some "")]
  /\ run.2 = Ret (JObj [("status", JStr "completed"); ("task_id", JStr "abc");
                        ("audio_url", JStr ""); ("lyrics", JStr "la la la")],
                  202).
Proof. repeat split. Qed.

(** ** Classification of a poll *)


(** Counterexample to C7 as stated, at two answers for an unknown task.
    The provider answers 404 with the JSON list [[]] as body:
    [check_status] raises an [AttributeError].  The provider answers 404
    with a body that is not JSON: [check_status] returns the invalid-JSON
    error payload, which has no [status] field, not a not-found result. *)
Lemma check_status_not_total :
  SunoMusicGenerator.check_status
    (Responded {| status_code := 404; text := "[]"; body := Some (JList []) |})
    "abc"
  = Raise (AttributeError "list" "get")
  /\ SunoMusicGenerator.check_status
       (Responded {| status_code := 404; text := "<html>Not Found</html>";
                     body := None |})
       "abc"
     = Ret (JObj [("error", JStr "Invalid JSON from Suno");
                  ("raw_response", JStr "<html>Not Found</html>")], 404).
Proof. split; reflexivity. Qed.

(** A body that is not JSON is answered with an error payload and the
    provider's HTTP status. *)
Lemma check_status_non_json resp task_id :
  body resp = None ->
  SunoMusicGenerator.check_status (Responded resp) task_id
  = Ret (JObj [("error", JStr "Invalid JSON from Suno");
               ("raw_response", JStr (text resp))], status_code resp).
Proof. intros H. unfold SunoMusicGenerator.check_status. by rewrite H. Qed.

(** A failure of the HTTP library is answered with 500; any other
    exception leaves [check_status]. *)
Lemma check_status_request_exception msg task_id :
  SunoMusicGenerator.check_status (Failed (RequestException msg)) task_id
  = Ret (JObj [("error", JStr msg)], 500).
Proof. reflexivity. Qed.

Ltac finish_verdict :=
  eexists; split; [reflexivity|]; split; [reflexivity|];
  split; [reflexivity|];
  let u := fresh "u" in let Hu := fresh "Hu" in
  intros u Hu; first [discriminate Hu | injection Hu as <-; reflexivity].

(** C7 (as amended). On every provider response whose body is a JSON
    object of a readable shape, [check_status] returns, and its result is
    the classification of the response: not_found with HTTP 404 when the
    provider answers 404 or the body has status 404; otherwise error with
    the provider's HTTP status when that status is not 200 or the body
    has an error code; otherwise completed with HTTP 200 and the audio
    URL when one is present; otherwise pending with HTTP 202. *)
Theorem check_status_classifies resp d task_id :
  body resp = Some (JObj d) ->
  readable (status_code resp) d = true ->
  let v := classify (status_code resp) d in
  exists payload,
    SunoMusicGenerator.check_status (Responded resp) task_id
    = Ret (JObj payload, verdict_http (status_code resp) v)
    /\ get payload "task_id" = JStr task_id
    /\ get payload "status" = JStr (verdict_status v)
    /\ (forall u, v = completed_with u -> get payload "audio_url" = u).
Proof.
  intros Hbody Hread. unfold SunoMusicGenerator.check_status, classify.
  rewrite Hbody. unfold readable in Hread.
  unfold says_not_found, says_error, provider_audio_url,
    SunoMusicGenerator.or_else, py_or, get in *.
  simpl.
  destruct (status_code resp =? 404) eqn:E404; simpl; [finish_verdict|].
  destruct (json_eqb (get_default d "status" JNull) (JNum 404)) eqn:Es; simpl;
    [finish_verdict|].
  simpl in Hread.
  destruct (status_code resp =? 200) eqn:E200; simpl.
  2: { destruct (truthy (get_default d "msg" JNull)); simpl;
         [|destruct (truthy (get_default d "error" JNull)); simpl];
         finish_verdict. }
  simpl in Hread.
  destruct (json_eqb (get_default d "code" JNull) (JNum 200)
            || json_eqb (get_default d "code" JNull) JNull) eqn:Ec; simpl.
  2: { destruct (truthy (get_default d "msg" JNull)); simpl;
         [|destruct (truthy (get_default d "error" JNull)); simpl];
         finish_verdict. }
  simpl in Hread.
  destruct (get_default d "data" JNull) as [ | | | | l | o]; simpl;
    try finish_verdict.
  - destruct l as [|first rest]; simpl; [finish_verdict|].
    destruct first as [ | | | | | o]; try discriminate. simpl.
    destruct (truthy (get_default o "audio_url" JNull)) eqn:Ea; simpl.
    + rewrite Ea. finish_verdict.
    + destruct (truthy (get_default o "audioUrl" JNull)) eqn:Eb; simpl;
        finish_verdict.
  - destruct (truthy (get_default o "audio_url" JNull)) eqn:Ea; simpl.
    + rewrite Ea. finish_verdict.
    + destruct (truthy (get_default o "audioUrl" JNull)) eqn:Eb; simpl;
        finish_verdict.
Qed.

(** Witness of C7: an unknown task, answered 404 with a JSON object. *)
Lemma check_status_classifies_witness :
  let d := [("status", JNum 404); ("message", JStr "no such task")] in
  let resp := {| status_code := 404; text := ""; body := Some (JObj d) |} in
  body resp = Some (JObj d)
  /\ readable (status_code resp) d = true
  /\ exists payload,
       SunoMusicGenerator.check_status (Responded resp) "abc"
       = Ret (JObj payload, 404)
       /\ get payload "task_id" = JStr "abc"
       /\ get payload "status" = JStr "not_found"
       /\ (forall u, not_found = completed_with u ->
             get payload "audio_url" = u).
Proof.
  intros d resp. split; [reflexivity|]. split; [reflexivity|].
  exact (check_status_classifies resp d "abc" eq_refl eq_refl).
Defined.

(** ** The instrumental request *)


(** Counterexample to C9 as stated: the body handed to Suno for the
    instrumental request has a [style] field, the genre. *)
Lemma instrumental_payload_has_style :
  let w := (Routes.create_song sample_base_url (Ret instrumental_request)
              "20250101_000000_0a1b2c3d" (Ret "la la la") sample_accept
              (Ret tt) empty_world).1 in
  exists payload,
    posted w = [JObj payload]
    /\ get payload "instrumental" = JBool true
    /\ has_key payload "style" = true
    /\ get payload "style" = JStr "lofi".
Proof. eexists. repeat split. Qed.

(** Nothing after the submission adds to the log of posted bodies. *)
Lemma persist_posted db tid title lyrics style mood theme w :
  posted (SunoMusicGenerator.persist db tid title lyrics style mood theme w).1
  = posted w.
Proof.
  unfold SunoMusicGenerator.persist, try_with, mbind, M_bind, bindM,
    query_first, commit. simpl.
  destruct (first_by_task_id tid (songs w)); [done|]. by destruct db.
Qed.

(** C9 (as amended). For the request
    [{"style":"instrumental","genre":"lofi"}], whatever the lyrics and the
    provider's answer, the route switches to instrumental mode with the
    genre as style: the one body it hands to Suno sets [instrumental] to
    true and carries [style = "lofi"]. *)
Theorem instrumental_request_payload url suffix lyrics post db w :
  posted (Routes.create_song url (Ret instrumental_request) suffix
            (Ret lyrics) post db w).1
  = (posted w ++
     [JObj [("customMode", JBool true);
            ("instrumental", JBool true);
            ("prompt", JStr lyrics);
            ("title", JStr ("Untitled_" ++ suffix));
            ("mood", JStr "");
            ("theme", JStr "");
            ("model", JStr "V4_5");
            ("callbackUrl",
             JStr (rstrip_with (fun c => Ascii.eqb c "/"%char) url
                   ++ "/receive_song"));
            ("style", JStr "lofi")]])%list.
Proof.
  unfold Routes.create_song, SunoMusicGenerator.generate_song,
    SunoMusicGenerator.generate_music, SunoMusicGenerator.requests_post,
    try_with, lift, mbind, mret, M_bind, M_ret, bindM, ret.
  simpl.
  repeat (case_match; simplify_eq/=); try reflexivity;
    match goal with
    | H : SunoMusicGenerator.persist _ _ _ _ _ _ _ _ = (?w1, _) |- _ =>
        apply (f_equal fst) in H; simpl in H; rewrite <- H;
        by rewrite persist_posted
    end.
Qed.

(** * Further properties *)

(** ** Text helpers *)

Lemma keep_length p s : (String.length (Text.keep p s) <= String.length s)%nat.
Proof.
  induction s as [|c s IH]; simpl; [lia|].
  destruct (p c); simpl; lia.
Qed.

Lemma keep_all_chars p s : Text.all_chars p (Text.keep p s) = true.
Proof.
  induction s as [|c s IH]; simpl; [done|].
  destruct (p c) eqn:E; simpl; [by rewrite E|done].
Qed.

Lemma keep_fixed p s : Text.keep p s = s <-> Text.all_chars p s = true.
Proof.
  induction s as [|c s IH]; simpl; [done|].
  destruct (p c) eqn:E; simpl.
  - rewrite <- IH. split; [by intros [= ->] | by intros ->].
  - split; [|done]. intros H.
    pose proof (keep_length p s) as Hl. rewrite H in Hl. simpl in Hl. lia.
Qed.

Lemma keep_app p s t : Text.keep p (s ++ t) = Text.keep p s ++ Text.keep p t.
Proof.
  induction s as [|c s IH]; simpl; [done|].
  destruct (p c); simpl; by rewrite IH.
Qed.

(** X1. [sanitize_for_logging] returns only ASCII characters, leaves a
    string unchanged exactly when it is all ASCII, works piecewise on a
    concatenation and is idempotent. *)
Theorem sanitize_for_logging_ascii_only :
  (forall text, Text.all_chars Text.is_ascii
                  (Helpers2.sanitize_for_logging text) = true)
  /\ (forall text, Helpers2.sanitize_for_logging text = text
                   <-> Text.all_chars Text.is_ascii text = true)
  /\ (forall a b, Helpers2.sanitize_for_logging (a ++ b)
                  = Helpers2.sanitize_for_logging a
                    ++ Helpers2.sanitize_for_logging b)
  /\ (forall text, Helpers2.sanitize_for_logging
                     (Helpers2.sanitize_for_logging text)
                   = Helpers2.sanitize_for_logging text).
Proof.
  unfold Helpers2.sanitize_for_logging. repeat split.
  - intros text. apply keep_all_chars.
  - by intros ?%keep_fixed.
  - by intros ?%keep_fixed.
  - intros. apply keep_app.
  - intros text. apply (proj2 (keep_fixed _ _)), keep_all_chars.
Qed.

Lemma take_length n s : (String.length (Text.take n s) <= n)%nat.
Proof.
  revert s. induction n as [|n IH]; intros [|c s]; simpl; try lia.
  specialize (IH s). lia.
Qed.

Lemma take_all_chars p n s :
  Text.all_chars p s = true -> Text.all_chars p (Text.take n s) = true.
Proof.
  revert s. induction n as [|n IH]; intros [|c s]; simpl; try done.
  intros [-> Hs]%andb_true_iff. by apply IH.
Qed.

Lemma take_all n s : (String.length s <= n)%nat -> Text.take n s = s.
Proof.
  revert s. induction n as [|n IH]; intros [|c s]; simpl; try done; try lia.
  intros H. rewrite IH; [done | lia].
Qed.

Lemma safe_not_space c : Text.is_safe c = true -> is_space c = false.
Proof.
  destruct c as [[] [] [] [] [] [] [] []]; vm_compute; congruence.
Qed.

Lemma sub_spaces_safe b s :
  Text.all_chars Text.is_safe s = true -> Text.sub_spaces b s = s.
Proof.
  revert b. induction s as [|c s IH]; intros b; simpl; [done|].
  intros [Hc Hs]%andb_true_iff.
  by rewrite (safe_not_space _ Hc), IH.
Qed.

Lemma lstrip_safe s : Text.all_chars Text.is_safe s = true -> lstrip s = s.
Proof.
  destruct s as [|c s]; simpl; [done|].
  intros [Hc _]%andb_true_iff. by rewrite (safe_not_space _ Hc).
Qed.

Lemma rstrip_safe s :
  Text.all_chars Text.is_safe s = true -> rstrip_with is_space s = s.
Proof.
  induction s as [|c s IH]; simpl; [done|].
  intros [Hc Hs]%andb_true_iff. rewrite (IH Hs).
  destruct s; [by rewrite (safe_not_space _ Hc) | done].
Qed.

(** X2. The public id is a base followed by an underscore and the task
    id as given; the base has at most 120 characters, all of them
    letters, digits, underscores or hyphens. *)
Theorem make_safe_public_id_shape title task_id :
  exists base,
    Helpers2.make_safe_public_id title task_id = base ++ "_" ++ task_id
    /\ (String.length base <= 120)%nat
    /\ Text.all_chars Text.is_safe base = true.
Proof.
  exists (Helpers2.safe_base title). split; [done|].
  unfold Helpers2.safe_base. split.
  - apply take_length.
  - apply take_all_chars, keep_all_chars.
Qed.

(** X3. A non-empty title of at most 120 safe characters is used as the
    base unchanged. *)
Theorem make_safe_public_id_keeps_safe_title title task_id :
  title <> "" ->
  Text.all_chars Text.is_safe title = true ->
  (String.length title <= 120)%nat ->
  Helpers2.make_safe_public_id title task_id = title ++ "_" ++ task_id.
Proof.
  intros Hne Hsafe Hlen.
  unfold Helpers2.make_safe_public_id, Helpers2.safe_base, strip.
  destruct (title =? "")%string eqn:E; [by apply String.eqb_eq in E|].
  rewrite (lstrip_safe _ Hsafe), (rstrip_safe _ Hsafe),
    (sub_spaces_safe _ _ Hsafe).
  rewrite (proj2 (keep_fixed _ _) Hsafe), (take_all _ _ Hlen). done.
Qed.

Lemma make_safe_public_id_keeps_safe_title_witness :
  "Dawn-2_a" <> ""
  /\ Text.all_chars Text.is_safe "Dawn-2_a" = true
  /\ (String.length "Dawn-2_a" <= 120)%nat
  /\ Helpers2.make_safe_public_id "Dawn-2_a" "abc" = "Dawn-2_a_abc".
Proof.
  assert (H1 : "Dawn-2_a" <> "") by discriminate.
  assert (H2 : Text.all_chars Text.is_safe "Dawn-2_a" = true) by reflexivity.
  assert (H3 : (String.length "Dawn-2_a" <= 120)%nat) by (simpl; lia).
  split; [exact H1|]. split; [exact H2|]. split; [exact H3|].
  exact (make_safe_public_id_keeps_safe_title "Dawn-2_a" "abc" H1 H2 H3).
Defined.

(** ** LLM content *)

Lemma part_texts_app a b :
  Helpers2.part_texts (a ++ b)%list
  = (ta ← Helpers2.part_texts a; tb ← Helpers2.part_texts b;
     Ret (ta ++ tb)%list).
Proof.
  induction a as [|x a IH]; simpl.
  - by destruct (Helpers2.part_texts b).
  - destruct (Helpers2.part_text x); simpl; [|done].
    rewrite IH. destruct (Helpers2.part_texts a); simpl; [|done].
    by destruct (Helpers2.part_texts b).
Qed.

Lemma expect_strs_shift i j vs ss :
  Helpers2.expect_strs i vs = Ret ss -> Helpers2.expect_strs j vs = Ret ss.
Proof.
  revert i j ss. induction vs as [|v vs IH]; intros i j ss; simpl; [done|].
  destruct v; try done.
  destruct (Helpers2.expect_strs (S i) vs) as [ss'|] eqn:E; simpl; [|done].
  intros [= <-]. by rewrite (IH _ (S j) _ E).
Qed.

Lemma expect_strs_app i a b sa sb :
  Helpers2.expect_strs i a = Ret sa ->
  Helpers2.expect_strs i b = Ret sb ->
  Helpers2.expect_strs i (a ++ b)%list = Ret (sa ++ sb)%list.
Proof.
  revert i sa. induction a as [|v a IH]; intros i sa; simpl.
  - by intros [= <-].
  - destruct v; try done.
    destruct (Helpers2.expect_strs (S i) a) as [sa'|] eqn:E; simpl; [|done].
    intros [= <-] Hb.
    by rewrite (IH _ _ E (expect_strs_shift _ (S i) _ _ Hb)).
Qed.

Lemma string_app_assoc (a b c : string) : (a ++ b) ++ c = a ++ (b ++ c).
Proof.
  induction a as [|x a IH]; [done|].
  change (String x ((a ++ b) ++ c) = String x (a ++ (b ++ c))).
  by rewrite IH.
Qed.

Lemma join_app sep (a b : list string) :
  a <> [] -> b <> [] ->
  Text.join sep (a ++ b)%list = Text.join sep a ++ sep ++ Text.join sep b.
Proof.
  intros Ha Hb. induction a as [|x a IH]; [done|].
  destruct a as [|y a].
  - simpl. by destruct b.
  - change (Text.join sep ((x :: y :: a) ++ b))
      with (x ++ sep ++ Text.join sep ((y :: a) ++ b)).
    rewrite IH by done.
    change (Text.join sep (x :: y :: a))
      with (x ++ sep ++ Text.join sep (y :: a)).
    by rewrite !string_app_assoc.
Qed.

Lemma part_texts_length items ts :
  Helpers2.part_texts items = Ret ts -> length ts = length items.
Proof.
  revert ts. induction items as [|x items IH]; intros ts; simpl.
  - by intros [= <-].
  - destruct (Helpers2.part_text x); simpl; [|done].
    destruct (Helpers2.part_texts items); simpl; [|done].
    intros [= <-]. simpl. by rewrite (IH _ eq_refl).
Qed.

Lemma expect_strs_length i vs ss :
  Helpers2.expect_strs i vs = Ret ss -> length ss = length vs.
Proof.
  revert i ss. induction vs as [|v vs IH]; intros i ss; simpl.
  - by intros [= <-].
  - destruct v; try done.
    destruct (Helpers2.expect_strs (S i) vs) eqn:E; simpl; [|done].
    intros [= <-]. simpl. by rewrite (IH _ _ E).
Qed.

(** X4. Normalizing two non-empty lists of parts one after the other
    gives the two normalized texts with one space between them. *)
Theorem normalize_content_append a b x y :
  a <> [] -> b <> [] ->
  Helpers2.normalize_content (Helpers2.Parts a) = Ret x ->
  Helpers2.normalize_content (Helpers2.Parts b) = Ret y ->
  Helpers2.normalize_content (Helpers2.Parts (a ++ b)) = Ret (x ++ " " ++ y).
Proof.
  intros Ha Hb. unfold Helpers2.normalize_content. rewrite part_texts_app.
  destruct (Helpers2.part_texts a) as [ta|] eqn:Eta; simpl; [|done].
  destruct (Helpers2.part_texts b) as [tb|] eqn:Etb; simpl; [|done].
  destruct (Helpers2.expect_strs 0 ta) as [sa|] eqn:Esa; simpl; [|done].
  destruct (Helpers2.expect_strs 0 tb) as [sb|] eqn:Esb; simpl; [|done].
  intros [= <-] [= <-].
  rewrite (expect_strs_app _ _ _ _ _ Esa Esb). simpl.
  rewrite join_app; [done| |].
  - apply part_texts_length in Eta. apply expect_strs_length in Esa.
    destruct sa; [|done]. destruct a; [done|]. simpl in *. lia.
  - apply part_texts_length in Etb. apply expect_strs_length in Esb.
    destruct sb; [|done]. destruct b; [done|]. simpl in *. lia.
Qed.

Lemma normalize_content_append_witness :
  [JStr "la"] <> [] /\ [JObj [("text", JStr "di")]; JObj []] <> []
  /\ Helpers2.normalize_content (Helpers2.Parts [JStr "la"]) = Ret "la"
  /\ Helpers2.normalize_content
       (Helpers2.Parts [JObj [("text", JStr "di")]; JObj []]) = Ret "di "
  /\ Helpers2.normalize_content
       (Helpers2.Parts ([JStr "la"] ++ [JObj [("text", JStr "di")]; JObj []]))
     = Ret ("la" ++ " " ++ "di ").
Proof.
  assert (Ha : [JStr "la"] <> []) by discriminate.
  assert (Hb : [JObj [("text", JStr "di")]; JObj []] <> []) by discriminate.
  split; [exact Ha|]. split; [exact Hb|].
  split; [reflexivity|]. split; [reflexivity|].
  exact (normalize_content_append _ _ _ _ Ha Hb eq_refl eq_refl).
Defined.

Lemma part_texts_ok items :
  Forall (fun item => is_text_part item = true) items ->
  exists ss, Helpers2.part_texts items = Ret (JStr <$> ss).
Proof.
  induction 1 as [|item items Hi _ [ss IH]]; [by exists []|].
  simpl. rewrite IH.
  destruct item as [ | | | s | | d]; try done.
  - by exists (s :: ss).
  - simpl in *. destruct (get_default d "text" (JStr "")) as [ | | | s | | ];
      try done. by exists (s :: ss).
Qed.

Lemma expect_strs_strs i ss :
  Helpers2.expect_strs i (JStr <$> ss) = Ret ss.
Proof.
  revert i. induction ss as [|s ss IH]; intros i; simpl; [done|].
  by rewrite IH.
Qed.

Lemma part_texts_fail items ts ss i :
  Helpers2.part_texts items = Ret ts ->
  Helpers2.expect_strs i ts = Ret ss ->
  Forall (fun item => is_text_part item = true) items.
Proof.
  revert ts ss i. induction items as [|item items IH]; intros ts ss i; simpl;
    [constructor|].
  destruct (Helpers2.part_text item) as [t|] eqn:Et; simpl; [|done].
  destruct (Helpers2.part_texts items) as [ts'|] eqn:Ets; simpl; [|done].
  intros [= <-]. simpl. destruct t; try done.
  destruct (Helpers2.expect_strs (S i) ts') eqn:E; simpl; [|done].
  intros _. constructor; [|by eapply IH].
  destruct item as [ | | | | | d]; simpl in *; try done.
  unfold attr_get_default in Et. simpl in Et. simplify_eq.
  by rewrite Et.
Qed.

(** X5. A list of parts is normalized without an exception exactly when
    every part is a string or an object whose [text] is a string or is
    missing; a list of strings gives the strings joined by single
    spaces. *)
Theorem normalize_content_succeeds_iff :
  (forall items,
     (exists s, Helpers2.normalize_content (Helpers2.Parts items) = Ret s)
     <-> Forall (fun item => is_text_part item = true) items)
  /\ (forall ss, Helpers2.normalize_content (Helpers2.Parts (JStr <$> ss))
                 = Ret (Text.join " " ss)).
Proof.
  split.
  - intros items. unfold Helpers2.normalize_content. split.
    + intros [s Hs].
      destruct (Helpers2.part_texts items) as [ts|] eqn:Ets; simpl in Hs;
        [|done].
      destruct (Helpers2.expect_strs 0 ts) as [ss|] eqn:Ess; simpl in Hs;
        [|done].
      by eapply part_texts_fail.
    + intros [ss ->]%part_texts_ok. simpl.
      rewrite expect_strs_strs. simpl. eauto.
  - intros ss. unfold Helpers2.normalize_content.
    assert (Helpers2.part_texts (JStr <$> ss) = Ret (JStr <$> ss)) as ->.
    { induction ss as [|s ss IH]; [done|].
      rewrite fmap_cons.
      change (Helpers2.part_texts (JStr s :: (JStr <$> ss)))
        with (ts ← Helpers2.part_texts (JStr <$> ss); Ret (JStr s :: ts)).
      by rewrite IH. }
    simpl. by rewrite expect_strs_strs.
Qed.
(** ** Retrying and polling *)

Lemma retry_upload_spec cloud k left :
  match Polling.retry_upload cloud k left with
  | Polling.Uploaded url n =>
      (k < n <= S (k + left))%nat
      /\ cloud (n - 1)%nat = Ret url
      /\ forall j, (k <= j < n - 1)%nat -> exists e, cloud j = Raise e
  | Polling.RetryError e n =>
      n = S (k + left)
      /\ cloud (n - 1)%nat = Raise e
      /\ forall j, (k <= j < n)%nat -> exists e', cloud j = Raise e'
  end.
Proof.
  revert k. induction left as [|left IH]; intros k; simpl.
  - destruct (cloud k) as [url|e] eqn:E.
    + replace (S k - 1)%nat with k by lia.
      split; [lia|]. split; [done|]. intros j Hj. lia.
    + replace (S k - 1)%nat with k by lia.
      split; [lia|]. split; [done|].
      intros j Hj. assert (j = k) as -> by lia. eauto.
  - destruct (cloud k) as [url|e] eqn:E.
    + replace (S k - 1)%nat with k by lia.
      split; [lia|]. split; [done|]. intros j Hj. lia.
    + specialize (IH (S k)).
      destruct (Polling.retry_upload cloud (S k) left) as [url n|e' n].
      * destruct IH as (Hn & Hc & Hall).
        split; [lia|]. split; [done|].
        intros j Hj. destruct (decide (j = k)) as [->|]; [eauto|].
        apply Hall. lia.
      * destruct IH as (Hn & Hc & Hall).
        split; [lia|]. split; [done|].
        intros j Hj. destruct (decide (j = k)) as [->|]; [eauto|].
        apply Hall. lia.
Qed.

(** X6. The retried upload calls the uploader at most three times and
    stops at the first call that returns: it hands back that call's
    [secure_url], and gives up with the last exception only after three
    failed calls. *)
Theorem upload_retry_three_attempts cloud :
  match Polling.upload_audio_to_cloudinary_from_buffer cloud with
  | Polling.Uploaded url n =>
      (1 <= n <= 3)%nat
      /\ cloud (n - 1)%nat = Ret url
      /\ forall j, (j < n - 1)%nat -> exists e, cloud j = Raise e
  | Polling.RetryError e n =>
      n = 3%nat
      /\ cloud 2%nat = Raise e
      /\ forall j, (j < 3)%nat -> exists e', cloud j = Raise e'
  end.
Proof.
  unfold Polling.upload_audio_to_cloudinary_from_buffer.
  pose proof (retry_upload_spec cloud 0 2) as H.
  destruct (Polling.retry_upload cloud 0 2) as [url n|e n].
  - destruct H as (Hn & Hc & Hall).
    split; [lia|]. split; [done|]. intros j Hj. apply Hall. lia.
  - destruct H as (-> & Hc & Hall).
    split; [done|]. split; [done|]. intros j Hj. apply Hall. lia.
Qed.

Lemma poll_from_spec answers attempt retries :
  let '(n, r) := Polling.poll_from answers attempt retries in
  (attempt <= n <= attempt + retries)%nat
  /\ (forall j, (attempt <= j < n - 1)%nat ->
        Polling.poll_once (answers j) = Ret None)
  /\ match r with
     | Ret (Some url) =>
         (attempt < n)%nat
         /\ Polling.poll_once (answers (n - 1)%nat) = Ret (Some url)
     | Ret None =>
         n = (attempt + retries)%nat
         /\ forall j, (attempt <= j < n)%nat ->
              Polling.poll_once (answers j) = Ret None
     | Raise e =>
         (attempt < n)%nat
         /\ Polling.poll_once (answers (n - 1)%nat) = Raise e
     end.
Proof.
  revert attempt. induction retries as [|retries IH]; intros attempt; simpl.
  - split; [lia|]. split; [intros j Hj; lia|].
    split; [lia|]. intros j Hj. lia.
  - destruct (Polling.poll_once (answers attempt)) as [[url|]|e] eqn:E.
    + replace (S attempt - 1)%nat with attempt by lia.
      split; [lia|]. split; [intros j Hj; lia|]. split; [lia | done].
    + specialize (IH (S attempt)).
      destruct (Polling.poll_from answers (S attempt) retries) as [n r].
      destruct IH as (Hn & Hbefore & Hr).
      split; [lia|]. split.
      * intros j Hj. destruct (decide (j = attempt)) as [->|]; [done|].
        apply Hbefore. lia.
      * destruct r as [[url|]|e].
        -- destruct Hr. split; [lia | done].
        -- destruct Hr as [-> Hall]. split; [lia|].
           intros j Hj. destruct (decide (j = attempt)) as [->|]; [done|].
           apply Hall. lia.
        -- destruct Hr. split; [lia | done].
    + replace (S attempt - 1)%nat with attempt by lia.
      split; [lia|]. split; [intros j Hj; lia|]. split; [lia | done].
Qed.

Lemma poll_once_found a url :
  Polling.poll_once a = Ret (Some url) ->
  truthy url = true
  /\ exists d, a = Polling.Answered 200 (Ret (JObj d))
               /\ get d "audio_url" = url.
Proof.
  destruct a as [e|status data]; simpl.
  - by destruct (SunoMusicGenerator.is_request_exception e).
  - destruct (status =? 200) eqn:Es; [|done].
    apply Z.eqb_eq in Es as ->.
    destruct data as [d|e];
      [|by destruct (SunoMusicGenerator.is_request_exception e)].
    destruct d as [ | | | | | d]; try done. simpl.
    fold (get d "audio_url").
    destruct (truthy (get d "audio_url")) eqn:Et; [|done].
    intros [= <-]. eauto.
Qed.

(** X7. [poll_for_audio] polls at most [retries] times.  It returns a
    URL only from the first poll that answers 200 with a JSON object
    whose [audio_url] is non-empty, every earlier poll having given
    nothing; it returns nothing only after [retries] polls that all gave
    nothing. *)
Theorem poll_for_audio_bounded answers retries :
  let '(n, r) := Polling.poll_for_audio answers retries in
  (n <= retries)%nat
  /\ (forall j, (j < n - 1)%nat -> Polling.poll_once (answers j) = Ret None)
  /\ match r with
     | Ret (Some url) =>
         (1 <= n)%nat /\ truthy url = true
         /\ exists d, answers (n - 1)%nat = Polling.Answered 200 (Ret (JObj d))
                      /\ get d "audio_url" = url
     | Ret None =>
         n = retries
         /\ forall j, (j < retries)%nat ->
              Polling.poll_once (answers j) = Ret None
     | Raise e =>
         (1 <= n)%nat /\ Polling.poll_once (answers (n - 1)%nat) = Raise e
     end.
Proof.
  unfold Polling.poll_for_audio.
  pose proof (poll_from_spec answers 0 retries) as H.
  destruct (Polling.poll_from answers 0 retries) as [n r].
  destruct H as (Hn & Hbefore & Hr).
  split; [lia|]. split; [intros j Hj; apply Hbefore; lia|].
  destruct r as [[url|]|e].
  - destruct Hr as [Hlt Hfound]. split; [lia|].
    by apply poll_once_found in Hfound as [? ?].
  - destruct Hr as [-> Hall]. split; [done|].
    intros j Hj. apply Hall. lia.
  - destruct Hr as [Hlt He]. split; [lia | done].
Qed.
(** ** The download route *)

Lemma all_chars_app p s t :
  Text.all_chars p (s ++ t) = Text.all_chars p s && Text.all_chars p t.
Proof.
  induction s as [|c s IH]; [done|].
  change (p c && Text.all_chars p (s ++ t)
          = p c && Text.all_chars p s && Text.all_chars p t).
  by rewrite IH, andb_assoc.
Qed.

Lemma last_segment_from_spec acc s :
  Text.all_chars not_slash acc = true ->
  Text.all_chars not_slash (Text.last_segment_from acc s) = true
  /\ exists prefix,
       acc ++ s = prefix ++ Text.last_segment_from acc s
       /\ (prefix = "" \/ exists p, prefix = p ++ "/").
Proof.
  revert acc. induction s as [|c s IH]; intros acc Hacc.
  - split; [done|]. exists "". split; [|by left].
    simpl. clear. induction acc as [|c acc IH]; [done|].
    change (String c (acc ++ "") = String c acc). by rewrite IH.
  - simpl. destruct (Ascii.eqb c "/") eqn:Ec.
    + apply Ascii.eqb_eq in Ec as ->.
      destruct (IH "" eq_refl) as (Hseg & prefix & Hs & Hp).
      split; [done|].
      exists (acc ++ "/" ++ prefix). split.
      * change ("" ++ s) with s in Hs. rewrite Hs at 1.
        change (String "/" (prefix ++ Text.last_segment_from "" s))
          with ("/" ++ (prefix ++ Text.last_segment_from "" s)).
        by rewrite !string_app_assoc.
      * right. destruct Hp as [->|[p ->]].
        -- exists acc. f_equal.
        -- exists (acc ++ "/" ++ p). by rewrite !string_app_assoc.
    + assert (Hacc' : Text.all_chars not_slash (acc ++ String c "") = true).
      { rewrite all_chars_app, Hacc. simpl. unfold not_slash. by rewrite Ec. }
      destruct (IH _ Hacc') as (Hseg & prefix & Hs & Hp).
      split; [done|]. exists prefix. split; [|done].
      rewrite <- Hs. by rewrite string_app_assoc.
Qed.

Lemma download_object d fetch :
  Routes2.download (Ret (JObj d)) fetch
  = match d with
    | [] => Ret (Routes2.Json (JObj [("error", JStr "Missing JSON payload")]) 400)
    | _ =>
        if truthy (get d "audio_url") then
          match fetch with
          | Failed e =>
              Ret (Routes2.Json (JObj [("error", JStr "Download failed");
                                       ("details", JStr (exn_str e))]) 500)
          | Responded resp =>
              if status_code resp =? 200 then
                match get d "audio_url" with
                | JStr url =>
                    Ret (Routes2.Attachment (text resp)
                           ("song_" ++ Text.last_segment url) "audio/mpeg")
                | v =>
                    Ret (Routes2.Json
                           (JObj [("error", JStr "Download failed");
                                  ("details",
                                   JStr (exn_str (AttributeError (type_name v)
                                                    "split")))]) 500)
                end
              else Ret (Routes2.Json
                          (JObj [("error", JStr "Failed to download file")]) 500)
          end
        else Ret (Routes2.Json (JObj [("error", JStr "audio_url required")]) 400)
    end.
Proof.
  destruct d as [|kv d]; [reflexivity|].
  unfold Routes2.download. set (o := kv :: d).
  cbn [mbind res_bind bind].
  change (truthy (JObj o)) with true.
  change (attr_get (JObj o) "audio_url") with (Ret (get o "audio_url")).
  cbn [mbind res_bind bind negb].
  destruct (truthy (get o "audio_url")); [|reflexivity].
  cbn [negb]. destruct fetch as [e|resp]; [reflexivity|].
  destruct (status_code resp =? 200); [|reflexivity].
  by destruct (get o "audio_url").
Qed.

(** X8. For a JSON object as body the download route always returns.  It
    sends a file only when [audio_url] is a non-empty string and the
    fetch answers 200; the file is the fetched content, served as
    [audio/mpeg] under the name [song_] followed by the part of the URL
    after its last slash.  It answers 400 exactly when the object is
    empty or has no usable [audio_url], and 500 otherwise.  A non-empty
    body that is not an object makes the route raise. *)
Theorem download_replies :
  (forall d fetch,
     exists r, Routes2.download (Ret (JObj d)) fetch = Ret r
       /\ match r with
          | Routes2.Attachment content name mimetype =>
              exists url resp prefix,
                get d "audio_url" = JStr url /\ url <> ""
                /\ fetch = Responded resp /\ status_code resp = 200
                /\ content = text resp /\ mimetype = "audio/mpeg"
                /\ name = "song_" ++ Text.last_segment url
                /\ Text.all_chars not_slash (Text.last_segment url) = true
                /\ url = prefix ++ Text.last_segment url
                /\ (prefix = "" \/ exists p, prefix = p ++ "/")
          | Routes2.Json _ status =>
              (status = 400 /\ (d = [] \/ truthy (get d "audio_url") = false))
              \/ (status = 500 /\ d <> []
                  /\ truthy (get d "audio_url") = true)
          end)
  /\ (forall v fetch,
        truthy v = true -> (forall d, v <> JObj d) ->
        Routes2.download (Ret v) fetch
        = Raise (AttributeError (type_name v) "get")).
Proof.
  split.
  - intros d fetch. rewrite download_object.
    destruct d as [|kv d]; [eexists; split; [reflexivity|]; left; auto|].
    set (o := kv :: d).
    destruct (truthy (get o "audio_url")) eqn:Et;
      [|eexists; split; [reflexivity|]; left; auto].
    destruct fetch as [e|resp];
      [eexists; split; [reflexivity|]; right; by auto|].
    destruct (status_code resp =? 200) eqn:Es;
      [|eexists; split; [reflexivity|]; right; by auto].
    apply Z.eqb_eq in Es.
    destruct (get o "audio_url") as [ | | | url | | ] eqn:Eu;
      try (eexists; split; [reflexivity|]; right; by auto).
    destruct (last_segment_from_spec "" url eq_refl)
      as (Hseg & prefix & Hs & Hp).
    eexists; split; [reflexivity|]. exists url, resp, prefix.
    repeat split; try done.
    intros ->. discriminate.
  - intros v fetch Ht Hno. unfold Routes2.download. simpl. rewrite Ht. simpl.
    destruct v; try done. by destruct (Hno fields).
Qed.
(** ** The table over runs *)

Section Runs.

Variable url : string.

Lemma run_reachable evs w : reachable url w -> reachable url (run url evs w).
Proof.
  revert w. induction evs as [|ev evs IH]; intros w Hw; [done|].
  simpl. apply IH. by apply reach_step.
Qed.

(** X9. In every world the service reaches, no two rows have the same
    task id: each task id is on at most one row. *)
Theorem task_ids_stay_unique w T :
  reachable url w -> (count_task T (songs w) <= 1)%nat.
Proof.
  intros Hreach. apply count_task_unique. by eapply reachable_unique.
Qed.

Lemma step_keeps_metadata w ev i s :
  songs w !! i = Some s ->
  exists s', songs (step url w ev) !! i = Some s'
    /\ (Song.id s', Song.task_id s', Song.title s', Song.lyrics s',
        Song.style s', Song.mood s', Song.theme s', Song.artist_name s',
        Song.retry_count s', Song.error_message s', Song.duration s')
     = (Song.id s, Song.task_id s, Song.title s, Song.lyrics s,
        Song.style s, Song.mood s, Song.theme s, Song.artist_name s,
        Song.retry_count s, Song.error_message s, Song.duration s).
Proof.
  intros Hi.
  destruct (change_lookup _ _ _ _ (step_change url w ev) Hi)
    as (s' & Hi' & _ & _ & [->|(suno & cloud & ->)]); eauto.
Qed.

(** X11. Whatever requests follow, a stored row is never deleted or
    moved, and its id, task id, title, lyrics, style, mood, theme, artist
    name, retry count, error message and duration are never rewritten. *)
Theorem rows_persist evs w i s :
  songs w !! i = Some s ->
  exists s', songs (run url evs w) !! i = Some s'
    /\ (Song.id s', Song.task_id s', Song.title s', Song.lyrics s',
        Song.style s', Song.mood s', Song.theme s', Song.artist_name s',
        Song.retry_count s', Song.error_message s', Song.duration s')
     = (Song.id s, Song.task_id s, Song.title s, Song.lyrics s,
        Song.style s, Song.mood s, Song.theme s, Song.artist_name s,
        Song.retry_count s, Song.error_message s, Song.duration s).
Proof.
  revert w s. induction evs as [|ev evs IH]; intros w s Hi; [eauto|].
  destruct (step_keeps_metadata w ev i s Hi) as (s1 & Hi1 & Heq1).
  destruct (IH _ _ Hi1) as (s' & Hi' & Heq'). simpl.
  exists s'. split; [done|]. congruence.
Qed.

End Runs.

Lemma task_ids_stay_unique_witness :
  reachable sample_base_url sample_completed
  /\ (count_task (JStr "abc") (songs sample_completed) <= 1)%nat.
Proof.
  assert (Hr : reachable sample_base_url sample_completed)
    by apply reach_step, reach_step, reach_init.
  split; [exact Hr|].
  exact (task_ids_stay_unique sample_base_url sample_completed (JStr "abc") Hr).
Defined.

Lemma rows_persist_witness :
  exists s s',
    songs sample_created !! 0%nat = Some s
    /\ songs (run sample_base_url
                [sample_callback "https://res.cloudinary.com/demo/a.mp3";
                 sample_create] sample_created) !! 0%nat = Some s'
    /\ Song.task_id s' = Song.task_id s /\ Song.lyrics s' = Song.lyrics s.
Proof.
  destruct (rows_persist sample_base_url
              [sample_callback "https://res.cloudinary.com/demo/a.mp3";
               sample_create] sample_created 0
              (Song.init 1 (JStr "Dawn_20250101_000000_0a1b2c3d") "la la la"
                 (JStr "pop") (JStr "hopeful") (JStr "") (JStr "abc")
                 processing) eq_refl) as (s' & Hs' & Heq).
  eexists _, s'. split; [reflexivity|]. split; [exact Hs'|].
  by simplify_eq.
Defined.
(** ** Answers of the routes *)

Lemma bind_ret_inv {A B} (m : M A) (f : A -> M B) w w' b :
  (m ≫= f) w = (w', Ret b) ->
  exists w1 a, m w = (w1, Ret a) /\ f a w1 = (w', Ret b).
Proof.
  unfold mbind, M_bind, bindM. destruct (m w) as [w1 [a|e]]; [eauto|done].
Qed.

Lemma lift_ret_inv {A} (r : res A) w w' a :
  lift r w = (w', Ret a) -> r = Ret a /\ w' = w.
Proof. unfold lift. by intros [= -> ->]. Qed.

Section Answers.

Variable app_base_url : string.

(** What [generate_music] hands back: the started payload with a
    non-empty task id and 202, or an error payload without [data] and 502
    or 500. *)
Lemma generate_music_result post db lyrics style title mood theme
    callback_url custom_mode instrumental w r status :
  (SunoMusicGenerator.generate_music app_base_url post db lyrics style title
     mood theme callback_url custom_mode instrumental w).2 = Ret (r, status) ->
  (status = 202
   /\ exists T, truthy T = true
        /\ r = JObj [("message", JStr "Generation started"); ("task_id", T);
                     ("data", JObj [("taskId", T)]); ("audio_url", JNull)])
  \/ ((status = 502 \/ status = 500)
      /\ exists o, r = JObj o /\ truthy r = true /\ get o "data" = JNull).
Proof.
  unfold SunoMusicGenerator.generate_music, SunoMusicGenerator.requests_post,
    SunoMusicGenerator.persist, query_first, commit, try_with, lift,
    mbind, mret, M_bind, M_ret, bindM, ret.
  intros H.
  repeat (case_match; simplify_eq/=);
    try (right; split; [auto|]; eexists; repeat split; done);
    left; (split; [done|]); eexists; (split; [|done]);
    by apply negb_false_iff.
Qed.

Lemma generate_song_result suffix llm post db title theme genre mood style
    instrumental w :
  exists payload status,
    (SunoMusicGenerator.generate_song app_base_url suffix llm post db title
       theme genre mood style instrumental w).2 = Ret (payload, status)
    /\ ((status = 202
         /\ exists T lyrics,
              llm = Ret lyrics /\ truthy T = true
              /\ payload = JObj [("message", JStr "Song is still processing.");
                                 ("task_id", T); ("lyrics", JStr lyrics)])
        \/ status = 500).
Proof.
  unfold SunoMusicGenerator.generate_song, try_with.
  match goal with |- context [?m w] =>
    match m with mbind _ _ => destruct (m w) as [w' [[p st]|e]] eqn:E end
  end; [|simpl; eauto 6].
  simpl.
  apply bind_ret_inv in E as (w1 & t & [Ht ->]%lift_ret_inv & E).
  apply bind_ret_inv in E as (w2 & lyrics & [Hl ->]%lift_ret_inv & E).
  apply bind_ret_inv in E as (w3 & [rd status] & Hgm & E).
  assert (Hllm : llm = Ret lyrics).
  { unfold SunoMusicGenerator.generate_lyrics in Hl. by destruct llm. }
  pose proof (f_equal snd Hgm) as Hres. simpl in Hres.
  apply generate_music_result in Hres.
  destruct Hres as [[-> (T & HT & ->)] | [Hst (o & -> & Ho & Hdata)]].
  - exists p, st. split; [done|].
    revert E. unfold mbind, M_bind, bindM, lift, mret, M_ret, ret,
      SunoMusicGenerator.or_else. simpl. rewrite HT. simpl.
    intros [= <- <- <-]. left. split; [done|]. eauto.
  - exists p, st. split; [done|]. right.
    rewrite Ho in E.
    change (attr_get (JObj o) "data") with (Ret (get o "data")) in E.
    rewrite Hdata in E.
    revert E. unfold mbind, M_bind, bindM, lift, mret, M_ret, ret. simpl.
    by intros [= <- <- <-].
Qed.

Lemma create_song_answer req suffix llm post db w :
  exists payload status,
    (Routes.create_song app_base_url req suffix llm post db w).2
    = Ret (payload, status)
    /\ ((status = 202
         /\ exists T lyrics,
              llm = Ret lyrics /\ truthy T = true
              /\ payload
                 = JObj [("message", JStr "Song generation started");
                         ("task_id", T);
                         ("result",
                          JObj [("message", JStr "Song is still processing.");
                                ("task_id", T); ("lyrics", JStr lyrics)])])
        \/ status = 500).
Proof.
  unfold Routes.create_song, try_with.
  match goal with |- context [?m w] =>
    match m with mbind _ _ => destruct (m w) as [w' [[p st]|e]] eqn:E end
  end; [|simpl; eauto 6].
  simpl. exists p, st. split; [done|].
  do 7 (apply bind_ret_inv in E as (? & ? & [? ->]%lift_ret_inv & E)).
  apply bind_ret_inv in E as (w1 & [result status] & Hgs & E).
  match type of Hgs with
  | SunoMusicGenerator.generate_song _ ?a ?b ?c ?d ?e ?f ?g ?h ?i ?j ?k = _ =>
      destruct (generate_song_result a b c d e f g h i j k)
        as (p' & st' & Hres & Hcases)
  end.
  rewrite Hgs in Hres. simpl in Hres. injection Hres as <- <-.
  revert E. unfold mret, M_ret, ret. intros [= <- <- <-].
  destruct Hcases as [[-> (T & lyrics & -> & HT & ->)] | ->]; [|by right].
  left. split; [done|]. exists T, lyrics. repeat split; [done|].
  unfold Helpers.extract_task_id. simpl. unfold get. simpl. by rewrite HT.
Qed.

(** X12. [POST /create_song] never raises and answers 202 or 500, never
    anything else: the 502 results of the orchestrator reach the caller
    as 500.  A 202 answer carries a non-empty task id and the generated
    lyrics. *)
Theorem create_song_replies req suffix llm post db w :
  exists payload status,
    (Routes.create_song app_base_url req suffix llm post db w).2
    = Ret (payload, status)
    /\ ((status = 202
         /\ exists T lyrics,
              llm = Ret lyrics /\ truthy T = true
              /\ payload
                 = JObj [("message", JStr "Song generation started");
                         ("task_id", T);
                         ("result",
                          JObj [("message", JStr "Song is still processing.");
                                ("task_id", T); ("lyrics", JStr lyrics)])])
        \/ status = 500).
Proof. apply create_song_answer. Qed.

(** X13. When the lyrics cannot be generated, [POST /create_song] answers
    500, sends nothing to Suno and stores nothing. *)
Theorem create_song_without_lyrics req suffix e post db w :
  exists payload,
    Routes.create_song app_base_url req suffix (Raise e) post db w
    = (w, Ret (payload, 500)).
Proof.
  unfold Routes.create_song, SunoMusicGenerator.generate_song,
    SunoMusicGenerator._unique_title, try_with, lift,
    mbind, mret, M_bind, M_ret, bindM, ret.
  simpl. repeat (case_match; simplify_eq/=); eauto.
Qed.

End Answers.
(** ** The status route *)

Lemma check_status_ok_data poll task_id data :
  SunoMusicGenerator.check_status poll task_id = Ret (data, 200) ->
  exists d, data = JObj d
    /\ json_eqb (get d "error") (JStr "Not Found") = false
    /\ py_or (default JNull (Helpers.extract_task_id data)) (JStr task_id)
       = JStr task_id.
Proof.
  unfold SunoMusicGenerator.check_status, SunoMusicGenerator.or_else,
    mbind, res_bind, bind.
  intros H.
  repeat (case_match; simplify_eq/=);
    (eexists; split; [reflexivity|]; split; [reflexivity|]);
    unfold Helpers.extract_task_id; simpl; unfold get, py_or; simpl;
    destruct task_id; reflexivity.
Qed.

(** X14. Whatever the provider answers, the status route looks the song
    up under the task id of the request path: normalizing the id on the
    result of [check_status] never changes it. *)
Theorem check_status_keeps_task_id poll task_id data :
  SunoMusicGenerator.check_status poll task_id = Ret (data, 200) ->
  py_or (default JNull (Helpers.extract_task_id data)) (JStr task_id)
  = JStr task_id.
Proof. by intros (d & _ & _ & H)%check_status_ok_data. Qed.

Lemma check_status_keeps_task_id_witness :
  let poll :=
    Responded {| status_code := 200; text := "";
                 body := Some (JObj [("code", JNum 200); ("id", JStr "zzz");
                                     ("data", JObj [("taskId", JStr "yyy");
                                        ("audio_url",
                                         JStr "https://provider/x.mp3")])]) |} in
  SunoMusicGenerator.check_status poll "abc"
  = Ret (JObj [("task_id", JStr "abc"); ("status", JStr "completed");
               ("audio_url", JStr "https://provider/x.mp3")], 200)
  /\ py_or (default JNull
              (Helpers.extract_task_id
                 (JObj [("task_id", JStr "abc"); ("status", JStr "completed");
                        ("audio_url", JStr "https://provider/x.mp3")])))
           (JStr "abc")
     = JStr "abc".
Proof.
  intros poll. split; [reflexivity|].
  exact (check_status_keeps_task_id poll "abc" _ eq_refl).
Defined.

Lemma unset_false o : unset o = false -> exists u, o = Some u /\ u <> "".
Proof.
  destruct o as [u|]; [|done]. simpl. intros H%String.eqb_neq. eauto.
Qed.

Lemma check_status_route_answer poll cloud db task_id w :
  exists payload status,
    (Routes.check_status_route poll cloud db task_id w).2
    = Ret (payload, status)
    /\ (status = 200 ->
        exists u i s,
          u <> ""
          /\ first_by_task_id (JStr task_id)
               (songs (Routes.check_status_route poll cloud db task_id w).1)
             = Some (i, s)
          /\ Song.cloudinary_url s = Some u
          /\ payload
             = JObj [("status", JStr (Song.status_value (Song.status s)));
                     ("task_id", JStr task_id);
                     ("audio_url", JStr u);
                     ("lyrics", JStr (Song.lyrics s))]).
Proof.
  unfold Routes.check_status_route, try_with, lift, mbind, M_bind, bindM.
  destruct (SunoMusicGenerator.check_status poll task_id)
    as [[data status]|e] eqn:Ecs; [|simpl; eexists _, _; by split].
  destruct (decide (status = 200)) as [->|Hne].
  - destruct (check_status_ok_data _ _ _ Ecs) as (d & -> & Herr & Hid).
    rewrite Hid, Herr. unfold query_first, commit, mret, M_ret, ret. simpl.
    destruct (first_by_task_id (JStr task_id) (songs w)) as [[i s]|] eqn:Ef;
      [|eexists _, _; by split].
    destruct (truthy _ && unset (Song.cloudinary_url s)) eqn:Eup.
    + destruct db as [[]|e]; simpl; [|eexists _, _; by split].
      destruct (Helpers.upload_to_cloudinary cloud =? "")%string eqn:Eu;
        [eexists _, _; by split|].
      apply String.eqb_neq in Eu.
      eexists _, _. split; [reflexivity|]. intros _.
      eexists _, i, _. split; [exact Eu|].
      split; [eapply first_by_task_id_insert; [exact Ef | reflexivity]|].
      by split.
    + simpl. destruct (unset (Song.cloudinary_url s)) eqn:Eun;
        [eexists _, _; by split|].
      apply unset_false in Eun as (u & Hu & Hne).
      eexists _, _. split; [reflexivity|]. intros _.
      exists u, i, s. rewrite Hu. by repeat split.
  - assert (E200 : (status =? 200) = false) by (by apply Z.eqb_neq).
    destruct data as [ | | | | | d];
      try (destruct (status =? 404); simpl; eexists _, _; by split).
    destruct ((status =? 404) || _); simpl; [eexists _, _; by split|].
    rewrite E200. simpl. eexists _, _. by split.
Qed.

(** X15. [GET /check_status/<task_id>] never raises.  When it answers 200
    the body carries a non-empty [audio_url], which is the
    [cloudinary_url] stored on the row of that task id, together with the
    row's status and lyrics. *)
Theorem check_status_route_replies poll cloud db task_id w :
  exists payload status,
    (Routes.check_status_route poll cloud db task_id w).2
    = Ret (payload, status)
    /\ (status = 200 ->
        exists u i s,
          u <> ""
          /\ first_by_task_id (JStr task_id)
               (songs (Routes.check_status_route poll cloud db task_id w).1)
             = Some (i, s)
          /\ Song.cloudinary_url s = Some u
          /\ payload
             = JObj [("status", JStr (Song.status_value (Song.status s)));
                     ("task_id", JStr task_id);
                     ("audio_url", JStr u);
                     ("lyrics", JStr (Song.lyrics s))]).
Proof. apply check_status_route_answer. Qed.

Lemma check_status_route_durable poll cloud db task_id w i s u :
  first_by_task_id (JStr task_id) (songs w) = Some (i, s) ->
  Song.cloudinary_url s = Some u -> u <> "" ->
  (Routes.check_status_route poll cloud db task_id w).1 = w
  /\ forall payload,
       (Routes.check_status_route poll cloud db task_id w).2
       = Ret (payload, 200) ->
       payload = JObj [("status", JStr (Song.status_value (Song.status s)));
                       ("task_id", JStr task_id);
                       ("audio_url", JStr u);
                       ("lyrics", JStr (Song.lyrics s))].
Proof.
  intros Ef Hu Hne.
  assert (Hun : unset (Song.cloudinary_url s) = false).
  { rewrite Hu. simpl. by apply String.eqb_neq. }
  unfold Routes.check_status_route, try_with, lift, mbind, M_bind, bindM.
  destruct (SunoMusicGenerator.check_status poll task_id)
    as [[data status]|e] eqn:Ecs; [|simpl; by split].
  destruct (decide (status = 200)) as [->|Hst].
  - destruct (check_status_ok_data _ _ _ Ecs) as (d & -> & Herr & Hid).
    rewrite Hid, Herr. unfold query_first, commit, mret, M_ret, ret. simpl.
    rewrite Ef, Hun, andb_false_r. simpl. split; [done|].
    rewrite Hu. simpl. by intros payload [= <-].
  - assert (E200 : (status =? 200) = false) by (by apply Z.eqb_neq).
    destruct data as [ | | | | | d];
      try (destruct (status =? 404); simpl; (split; [done|]);
           by (intros payload Hp; simplify_eq/=)).
    destruct ((status =? 404) || _); simpl;
      [split; [done|]; by (intros payload Hp; simplify_eq/=)|].
    rewrite E200. simpl. split; [done|].
    by (intros payload Hp; simplify_eq/=).
Qed.

(** X16. Once the row of a task has a non-empty [cloudinary_url], a poll
    for that task changes nothing, whatever the provider, Cloudinary and
    the database answer; and if it answers 200, the [audio_url] it
    reports is that stored URL. *)
Theorem check_status_route_keeps_durable_url poll cloud db task_id w i s u :
  first_by_task_id (JStr task_id) (songs w) = Some (i, s) ->
  Song.cloudinary_url s = Some u -> u <> "" ->
  (Routes.check_status_route poll cloud db task_id w).1 = w
  /\ forall payload,
       (Routes.check_status_route poll cloud db task_id w).2
       = Ret (payload, 200) ->
       payload = JObj [("status", JStr (Song.status_value (Song.status s)));
                       ("task_id", JStr task_id);
                       ("audio_url", JStr u);
                       ("lyrics", JStr (Song.lyrics s))].
Proof. apply check_status_route_durable. Qed.

Lemma check_status_route_keeps_durable_url_witness :
  let poll :=
    Responded {| status_code := 200; text := "";
                 body := Some (JObj [("code", JNum 200);
                                     ("data", JObj [("audio_url",
                                        JStr "https://provider/y.mp3")])]) |} in
  let run :=
    Routes.check_status_route poll
      (Ret (Some "https://res.cloudinary.com/demo/b.mp3")) (Ret tt) "abc"
      sample_completed in
  run.1 = sample_completed
  /\ run.2
     = Ret (JObj [("status", JStr "completed"); ("task_id", JStr "abc");
                  ("audio_url", JStr "https://res.cloudinary.com/demo/a.mp3");
                  ("lyrics", JStr "la la la")], 200).
Proof.
  intros poll run.
  assert (Hne : "https://res.cloudinary.com/demo/a.mp3" <> "") by discriminate.
  destruct (check_status_route_keeps_durable_url poll
              (Ret (Some "https://res.cloudinary.com/demo/b.mp3")) (Ret tt)
              "abc" sample_completed 0 _ _ eq_refl eq_refl Hne) as [Hw Hp].
  split; [exact Hw | reflexivity].
Defined.
(** ** The callback route *)

(** X17. [POST /receive_song] never raises and answers 200, 400, 404 or
    500.  Unless it answers 200 it leaves the table as it was.  When it
    answers 200, the row of the task id in the request is completed, its
    [suno_url] is the [audio_url] of the request, and its
    [cloudinary_url] and [audio_url] are the non-empty URL the answer
    reports. *)
Theorem receive_song_replies req download cloud db w :
  exists payload status,
    (Routes.receive_song req download cloud db w).2 = Ret (payload, status)
    /\ (status = 200 \/ status = 400 \/ status = 404 \/ status = 500)
    /\ (status <> 200 -> (Routes.receive_song req download cloud db w).1 = w)
    /\ (status = 200 ->
        exists d u i s,
          req = Ret (JObj d) /\ u <> ""
          /\ payload = JObj [("message", JStr "Song stored successfully");
                             ("task_id", get d "task_id");
                             ("cloudinary_url", JStr u)]
          /\ first_by_task_id (get d "task_id")
               (songs (Routes.receive_song req download cloud db w).1)
             = Some (i, s)
          /\ Song.status s = completed
          /\ Song.suno_url s = get d "audio_url"
          /\ Song.cloudinary_url s = Some u
          /\ Song.audio_url s = Some u).
Proof.
  unfold Routes.receive_song, query_first, commit, try_with, lift, raise,
    mbind, mret, M_bind, M_ret, bindM, ret.
  destruct req as [[ | | | | | d]|e];
    try (simpl; eexists _, _; split; [reflexivity|];
         split; [auto|]; split; [done|]; by intros [=]).
  change (attr_get (JObj d) "task_id") with (Ret (get d "task_id")).
  change (attr_get (JObj d) "audio_url") with (Ret (get d "audio_url")).
  cbv beta iota.
  destruct (negb (truthy (get d "task_id"))
            || negb (truthy (get d "audio_url")));
    [simpl; eexists _, _; split; [reflexivity|];
     split; [auto|]; split; [done|]; by intros [=]|].
  cbv beta iota.
  destruct (first_by_task_id (get d "task_id") (songs w)) as [[i s]|] eqn:Ef;
    [|simpl; eexists _, _; split; [reflexivity|];
      split; [auto|]; split; [done|]; by intros [=]].
  destruct download as [[]|[ | | ]];
    try (simpl; eexists _, _; split; [reflexivity|];
         split; [auto|]; split; [done|]; by intros [=]).
  destruct (Helpers.upload_to_cloudinary cloud =? "")%string eqn:Eu;
    [simpl; eexists _, _; split; [reflexivity|];
     split; [auto|]; split; [done|]; by intros [=]|].
  apply String.eqb_neq in Eu.
  destruct db as [[]|e];
    [|simpl; eexists _, _; split; [reflexivity|];
      split; [auto|]; split; [done|]; by intros [=]].
  simpl. eexists _, _. split; [reflexivity|]. split; [auto|].
  split; [done|]. intros _.
  eexists d, _, i, _. split; [done|]. split; [exact Eu|].
  split; [done|].
  split; [eapply first_by_task_id_insert; [exact Ef | reflexivity]|].
  by repeat split.
Qed.

(** ** Polling the status route *)

(** X18. A client loop polling the service's own status route stops at
    the first poll answered 200: such an answer always makes one turn of
    [poll_for_audio] return the stored [cloudinary_url], and any other
    answer makes the loop go on. *)
Theorem poll_once_on_status_route poll cloud db task_id w :
  exists payload status,
    (Routes.check_status_route poll cloud db task_id w).2
    = Ret (payload, status)
    /\ (status = 200 ->
        exists u i s,
          Polling.poll_once (Polling.Answered status (Ret payload))
          = Ret (Some (JStr u))
          /\ u <> ""
          /\ first_by_task_id (JStr task_id)
               (songs (Routes.check_status_route poll cloud db task_id w).1)
             = Some (i, s)
          /\ Song.cloudinary_url s = Some u)
    /\ (status <> 200 ->
        Polling.poll_once (Polling.Answered status (Ret payload)) = Ret None).
Proof.
  destruct (check_status_route_answer poll cloud db task_id w)
    as (payload & status & Hr & H200).
  exists payload, status. split; [done|]. split.
  - intros ->. destruct (H200 eq_refl) as (u & i & s & Hne & Hf & Hc & ->).
    exists u, i, s. split; [|done].
    simpl. destruct u; [done | reflexivity].
  - intros Hne. simpl. by apply Z.eqb_neq in Hne as ->.
Qed.
(** ** The submission *)

Lemma try_with_returns {A} (m : M A) (h : exn -> M A) w :
  (forall e w', exists a, (h e w').2 = Ret a) ->
  exists a, (try_with m h w).2 = Ret a.
Proof.
  intros Hh. unfold try_with. destruct (m w) as [w' [a|e]]; simpl; eauto.
Qed.

Section Submission.

Variable app_base_url : string.

(** X19. [generate_music] raises in one case only: a non-empty style that
    is not a string makes it raise an [AttributeError] before anything is
    sent or stored.  With an empty style or a string it always
    returns. *)
Theorem generate_music_raises_only_on_style post db lyrics style title mood
    theme callback_url custom_mode instrumental w :
  (truthy style = true -> (forall s, style <> JStr s) ->
   SunoMusicGenerator.generate_music app_base_url post db lyrics style title
     mood theme callback_url custom_mode instrumental w
   = (w, Raise (AttributeError (type_name style) "strip")))
  /\ (truthy style = false \/ (exists s, style = JStr s) ->
      exists r,
        (SunoMusicGenerator.generate_music app_base_url post db lyrics style
           title mood theme callback_url custom_mode instrumental w).2
        = Ret r).
Proof.
  unfold SunoMusicGenerator.generate_music, SunoMusicGenerator.build_payload.
  split.
  - intros Ht Hno. rewrite Ht.
    destruct style as [ | | | s | | ]; try done. by destruct (Hno s).
  - intros Hst.
    assert (exists b, (if truthy style
                       then s ← attr_strip style;
                            Ret (negb (lower s =? "instrumental")%string)
                       else Ret false) = Ret b) as [b ->].
    { destruct Hst as [-> | [s ->]]; [eauto|].
      destruct (truthy (JStr s)); simpl; eauto. }
    unfold lift, mbind at 1, M_bind, bindM. cbv beta iota.
    apply try_with_returns. intros e w'. simpl. eauto.
Qed.

Lemma rstrip_with_spec p s :
  exists t,
    s = rstrip_with p s ++ t
    /\ Text.all_chars p t = true
    /\ forall b c, rstrip_with p s = b ++ String c "" -> p c = false.
Proof.
  induction s as [|c s (t & Hs & Ht & Hlast)].
  - exists "". repeat split. intros [|??] ?; done.
  - simpl. destruct (rstrip_with p s) as [|c' r] eqn:E.
    + destruct (p c) eqn:Ec.
      * exists (String c t). split; [by rewrite Hs at 1|].
        split; [simpl; by rewrite Ec, Ht|]. intros [|??] ?; done.
      * exists t. split; [by rewrite Hs at 1|]. split; [done|].
        intros [|? [|??]] c0; intros [=]; by subst.
    + exists t. split; [by rewrite Hs at 1|]. split; [done|].
      intros [|c1 b] c0.
      * intros [=].
      * intros [= -> Hb]. by eapply Hlast.
Qed.

(** X20. Without a callback URL in the call, the body built for Suno
    carries the base URL of the service without its trailing slashes,
    followed by [/receive_song]: the callback URL never has a doubled
    slash before the route, however the base URL is written. *)
Theorem default_callback_url lyrics style title mood theme custom_mode
    instrumental payload :
  SunoMusicGenerator.build_payload app_base_url lyrics style title mood theme
    None custom_mode instrumental = Ret (JObj payload) ->
  exists base slashes,
    get payload "callbackUrl" = JStr (base ++ "/receive_song")
    /\ app_base_url = base ++ slashes
    /\ Text.all_chars (fun c => Ascii.eqb c "/"%char) slashes = true
    /\ forall b, base <> b ++ "/".
Proof.
  unfold SunoMusicGenerator.build_payload. simpl.
  destruct (rstrip_with_spec (fun c => Ascii.eqb c "/"%char) app_base_url)
    as (t & Hs & Ht & Hlast).
  intros H.
  exists (rstrip_with (fun c => Ascii.eqb c "/"%char) app_base_url), t.
  split; [|split; [done|split; [done|]]].
  - destruct (truthy style); [destruct (attr_strip style); [|done]|];
      simpl in H; repeat case_match; by simplify_eq/=.
  - intros b Hb. by specialize (Hlast _ _ Hb).
Qed.

(** X21. For one title, two different suffixes give two different unique
    titles. *)
Theorem unique_title_distinct suffix1 suffix2 title t1 t2 :
  SunoMusicGenerator._unique_title suffix1 title = Ret t1 ->
  SunoMusicGenerator._unique_title suffix2 title = Ret t2 ->
  suffix1 <> suffix2 -> t1 <> t2.
Proof.
  unfold SunoMusicGenerator._unique_title.
  destruct (if truthy title then attr_strip title else Ret "Untitled")
    as [base|]; simpl; [|done].
  intros [= <-] [= <-] Hne Heq. apply Hne.
  by apply (inj (String.app base)), (inj (String.app "_")) in Heq.
Qed.

End Submission.

Lemma default_callback_url_witness :
  exists base slashes,
    get [("customMode", JBool true); ("instrumental", JBool false);
         ("prompt", JStr "la"); ("title", JStr "Dawn"); ("mood", JStr "");
         ("theme", JStr ""); ("model", JStr "V4_5");
         ("callbackUrl", JStr "https://dhive.example/receive_song");
         ("style", JStr "pop")] "callbackUrl"
    = JStr (base ++ "/receive_song")
    /\ "https://dhive.example//" = base ++ slashes
    /\ Text.all_chars (fun c => Ascii.eqb c "/"%char) slashes = true
    /\ forall b, base <> b ++ "/".
Proof.
  exact (default_callback_url "https://dhive.example//" "la" (JStr "pop")
           (JStr "Dawn") JNull JNull true false _ eq_refl).
Defined.

Lemma unique_title_distinct_witness :
  SunoMusicGenerator._unique_title "20250101_000000_0a1b2c3d" (JStr " Dawn ")
  = Ret "Dawn_20250101_000000_0a1b2c3d"
  /\ SunoMusicGenerator._unique_title "20250101_000000_ffffffff" (JStr " Dawn ")
     = Ret "Dawn_20250101_000000_ffffffff"
  /\ "Dawn_20250101_000000_0a1b2c3d" <> "Dawn_20250101_000000_ffffffff".
Proof.
  split; [reflexivity|]. split; [reflexivity|].
  apply (unique_title_distinct "20250101_000000_0a1b2c3d"
           "20250101_000000_ffffffff" (JStr " Dawn ") _ _ eq_refl eq_refl).
  discriminate.
Defined.
(** ** Rows as the API shows them *)

Lemma change_retry_count st st' :
  change st st' ->
  Forall (fun s => Song.retry_count s = 0) st ->
  Forall (fun s => Song.retry_count s = 0) st'.
Proof.
  intros [-> | tid title lyrics style mood theme _ -> | i s suno cloud Hi ->] Hst.
  - done.
  - apply Forall_app. split; [done|]. by repeat constructor.
  - apply Forall_insert; [done|]. simpl.
    exact (Forall_lookup_1 _ _ _ _ Hst Hi).
Qed.

(** X22. For every row of a table the service reaches, [to_dict] reports
    as [audio_url] the value of the [audio_url] column (the same as
    [cloudinary_url]), a status of processing or completed, no error
    message and a retry count of zero. *)
Theorem to_dict_on_reachable_rows url w :
  reachable url w ->
  Forall (fun s => forall created_at updated_at,
            let d := SongView.to_dict created_at updated_at s in
            get d "audio_url" = obj_of_opt_str (Song.audio_url s)
            /\ get d "audio_url" = get d "cloudinary_url"
            /\ (get d "status" = JStr "processing"
                \/ get d "status" = JStr "completed")
            /\ get d "error_message" = JNull
            /\ get d "retry_count" = JNum 0) (songs w).
Proof.
  intros Hreach.
  assert (Hretry : Forall (fun s => Song.retry_count s = 0) (songs w)).
  { induction Hreach as [|w ev _ IH]; [constructor|].
    eapply change_retry_count; [apply step_change | exact IH]. }
  pose proof (reachable_rows_ok _ _ Hreach) as Hok.
  apply Forall_forall. intros s Hs created_at updated_at.
  rewrite Forall_forall in Hretry, Hok.
  destruct (Hok s Hs) as [Hst Herr Hmirror _].
  unfold get. simpl. rewrite Hmirror, Herr, (Hretry s Hs).
  repeat split. destruct Hst as [-> | ->]; auto.
Qed.

Lemma to_dict_on_reachable_rows_witness :
  reachable sample_base_url sample_completed
  /\ Forall (fun s => forall created_at updated_at,
               let d := SongView.to_dict created_at updated_at s in
               get d "audio_url" = obj_of_opt_str (Song.audio_url s)
               /\ get d "audio_url" = get d "cloudinary_url"
               /\ (get d "status" = JStr "processing"
                   \/ get d "status" = JStr "completed")
               /\ get d "error_message" = JNull
               /\ get d "retry_count" = JNum 0) (songs sample_completed).
Proof.
  assert (Hr : reachable sample_base_url sample_completed)
    by apply reach_step, reach_step, reach_init.
  split; [exact Hr|].
  exact (to_dict_on_reachable_rows sample_base_url sample_completed Hr).
Defined.
(** ** From creation to the durable URL *)



Section EndToEnd.

Variable app_base_url : string.



End EndToEnd.

